(** * SoFiA image pipeline: [make_images.main] and its figure steps

    A shallow embedding of [src/make_images.py] and [modules/get_ancillary.py]
    and the properties of the orchestration that the specification states.

    Conventions of the embedding.
    - A numpy [float64] is an exact rational or the [NaN] sentinel; comparisons
      with [NaN] are false and arithmetic on [NaN] gives [NaN], as in numpy.
    - The file system is a finite map from paths to contents; the caller's
      [surveys] list is one shared object held in the world, which [main]
      reads and mutates in place.
    - Python exceptions are the [Raise] outcome of a state-and-exception
      monad; [try ... except E] catches exactly [E].
    - The network, the FITS cube readers of [modules.functions], [reproject]
      and the statistics that need a square root are capabilities of a type
      class: the code is parametric in them. Of the renderer the embedding
      keeps what the control flow of the code depends on, the two refusals
      of [ax.contour], and what a figure shows: its kind, projection, image
      layer, beam patch and the contour levels it draws. *)

From Stdlib Require Import QArith Qabs ZArith Lia Lqa.
From stdpp Require Import base strings list gmap pretty.

(** ** Numbers and arrays *)

Inductive value : Type :=
  | NaN
  | Num (q : Q).

Definition Qltb (a b : Q) : bool := negb (Qle_bool b a).

(** [a < b] on floats: false as soon as one side is [NaN]. *)
Definition vlt (a b : value) : bool :=
  match a, b with
  | Num x, Num y => Qltb x y
  | _, _ => false
  end.

(** [a > b] is [b < a]. *)
Definition vgt (a b : value) : bool := vlt b a.

Definition vle (a b : value) : bool :=
  match a, b with
  | Num x, Num y => Qle_bool x y
  | _, _ => false
  end.

Definition vlift2 (f : Q -> Q -> Q) (a b : value) : value :=
  match a, b with
  | Num x, Num y => Num (f x y)
  | _, _ => NaN
  end.

Definition vadd : value -> value -> value := vlift2 Qplus.
Definition vsub : value -> value -> value := vlift2 Qminus.
Definition vmul : value -> value -> value := vlift2 Qmult.

Definition vabs (a : value) : value :=
  match a with
  | Num x => Num (Qabs x)
  | NaN => NaN
  end.

Definition is_nan (a : value) : bool :=
  match a with
  | NaN => true
  | Num _ => false
  end.

(** A 2-D array, row by row. *)
Definition image : Type := list (list value).

Definition shape (a : image) : list nat := map length a.

Definition same_shape (a b : image) : bool := bool_decide (shape a = shape b).

(** [arr > x] and [arr < x], element by element. *)
Definition arr_gt (a : image) (x : value) : list (list bool) :=
  map (map (fun v => vgt v x)) a.

Definition arr_lt (a : image) (x : value) : list (list bool) :=
  map (map (fun v => vlt v x)) a.

(** [m1 * m2] on boolean arrays of one shape is the element-wise "and". *)
Definition mask_mul (m1 m2 : list (list bool)) : list (list bool) :=
  zip_with (zip_with andb) m1 m2.

Fixpoint select_row (r : list value) (m : list bool) : list value :=
  match r, m with
  | v :: r', b :: m' => if b then v :: select_row r' m' else select_row r' m'
  | _, _ => []
  end.

Fixpoint select_rows (a : image) (m : list (list bool)) : list value :=
  match a, m with
  | r :: a', mr :: m' => select_row r mr ++ select_rows a' m'
  | _, _ => []
  end.

(** [arr[mask]]: the selected elements in row-major order; numpy raises
    [IndexError] when the mask does not have the array's shape, which is
    [None] here. *)
Definition bool_index (a : image) (m : list (list bool)) : option (list value) :=
  if bool_decide (map length a = map length m) then Some (select_rows a m) else None.

(** [arr[mask] = x], in place. *)
Definition mask_assign (a : image) (m : list (list bool)) (x : value) : option image :=
  if bool_decide (map length a = map length m)
  then Some (zip_with (zip_with (fun v (b : bool) => if b then x else v)) a m)
  else None.

Fixpoint all_nums (l : list value) : option (list Q) :=
  match l with
  | [] => Some []
  | NaN :: _ => None
  | Num q :: l' => match all_nums l' with
                   | Some qs => Some (q :: qs)
                   | None => None
                   end
  end.

Fixpoint insert_sorted (x : Q) (l : list Q) : list Q :=
  match l with
  | [] => [x]
  | y :: l' => if Qle_bool x y then x :: l else y :: insert_sorted x l'
  end.

Definition sort_asc (l : list Q) : list Q := foldr insert_sorted [] l.

(** [np.median] of a flat array: [NaN] for an empty array or one that holds
    a [NaN]; else the middle element of the sorted values, or the mean of
    the two middle ones. *)
Definition np_median (l : list value) : value :=
  match all_nums l with
  | None => NaN
  | Some qs =>
      let s := sort_asc qs in
      let n := length s in
      if Nat.even n
      then match s !! (n / 2 - 1)%nat, s !! (n / 2)%nat with
           | Some x, Some y => Num ((x + y) / 2)
           | _, _ => NaN
           end
      else match s !! (n / 2)%nat with
           | Some x => Num x
           | None => NaN
           end
  end.

(** [base * 2 ** np.arange(10)]. *)
Definition pow2 (k : nat) : Q := inject_Z (2 ^ Z.of_nat k).

Definition contour_ladder (base_contour : value) : list value :=
  map (fun k => vmul base_contour (Num (pow2 k))) (seq 0 10).

(** [z.shape[0] < 2 or z.shape[1] < 2] is what [ax.contour] refuses. *)
Definition at_least_2x2 (z : image) : bool :=
  match z with
  | _ :: _ :: _ => forallb (fun row => Nat.leb 2 (length row)) z
  | _ => false
  end.

(** [np.diff(levels)]. *)
Fixpoint diffs (levels : list value) : list value :=
  match levels with
  | a :: (b :: _) as rest => vsub b a :: diffs rest
  | _ => []
  end.

(** [len(levels) > 1 and np.min(np.diff(levels)) <= 0.0]: with a [NaN] among
    the differences the minimum is [NaN] and the comparison is false. *)
Definition not_increasing (levels : list value) : bool :=
  match all_nums (diffs levels) with
  | Some ds => existsb (fun d => Qle_bool d 0) ds
  | None => false
  end.

(** ** Angles with units ([astropy.units]) *)

Inductive ang_unit : Type := deg | arcmin | arcsec.

Record Quantity : Type := mkQuantity { qvalue : Q; qunit : ang_unit }.

Definition arcsec_per (u : ang_unit) : Q :=
  match u with
  | deg => 3600
  | arcmin => 60
  | arcsec => 1
  end.

(** [q.to(u)]. *)
Definition to (q : Quantity) (u : ang_unit) : Quantity :=
  mkQuantity (qvalue q * arcsec_per (qunit q) / arcsec_per u) u.

(** [x * q] for a plain number [x]. *)
Definition qscale (x : Q) (q : Quantity) : Quantity :=
  mkQuantity (x * qvalue q) (qunit q).

(** [(a / b).decompose()]: the ratio of two angles, a plain number. *)
Definition qratio (a b : Quantity) : Q :=
  qvalue (to a arcsec) / qvalue (to b arcsec).

(** [int(x)] truncates toward zero. *)
Definition py_int (x : Q) : Z := Z.quot (Qnum x) (Zpos (Qden x)).

(** ** Strings and lists as Python has them *)

Fixpoint replace_go (old new : string) (skip : nat) (s : string) : string :=
  match s with
  | EmptyString => EmptyString
  | String c s' =>
      match skip with
      | S k => replace_go old new k s'
      | O => if String.prefix old s
             then new +:+ replace_go old new (String.length old - 1) s'
             else String c (replace_go old new 0 s')
      end
  end.

(** [s.replace(old, new)] for a non-empty [old]. *)
Definition str_replace (old new s : string) : string := replace_go old new 0 s.

Definition lower_ascii (c : Ascii.ascii) : Ascii.ascii :=
  let n := Ascii.nat_of_ascii c in
  if (65 <=? n)%nat && (n <=? 90)%nat then Ascii.ascii_of_nat (n + 32) else c.

Fixpoint str_lower (s : string) : string :=
  match s with
  | EmptyString => EmptyString
  | String c s' => String (lower_ascii c) (str_lower s')
  end.

(** [x in l]. *)
Definition py_in (x : string) (l : list string) : bool := bool_decide (x ∈ l).

(** [l.remove(x)]: drops the first occurrence; [None] is Python's
    [ValueError] when there is none. *)
Fixpoint py_remove (x : string) (l : list string) : option (list string) :=
  match l with
  | [] => None
  | y :: l' => if String.eqb y x then Some l'
               else match py_remove x l' with
                    | Some r => Some (y :: r)
                    | None => None
                    end
  end.

(** ** The data the pipeline handles *)

(** A FITS header: its cards. An empty header is falsy in Python. *)
Definition Header : Type := list (string * string).

Record hdu : Type := mkHdu { header : Header; data : image }.

(** A colour image of the imaging library: rows of RGB pixels. *)
Definition PILImage : Type := list (list (N * N * N)).

(** The catalog row carries either a frequency column or a velocity column. *)
Inductive SpectralCol : Type :=
  | FreqCol (freq : value)
  | VCol (v_col : value).

Record Source : Type := mkSource {
  id : N;
  name : string;
  ra : Q;
  dec : Q;
  x : Q;
  y : Q;
  x_min : Q;
  x_max : Q;
  y_min : Q;
  y_max : Q;
  z_min : Q;
  z_max : Q;
  kin_pa : Q;
  spectral : SpectralCol
}.

Record CubeParams : Type := mkCubeParams {
  bmaj : Quantity;
  bmin : Quantity;
  bpa : Q;
  cellsize : Quantity;
  spec_axis : string;
  spec_sys : string;
  equinox : option string;
  frame : string
}.

Record SkyCoord : Type := mkSkyCoord {
  sc_ra : Q;
  sc_dec : Q;
  sc_frame : string;
  sc_equinox : option string
}.

Record Patch : Type := mkPatch { width : Q; height : Q }.

Inductive figure_kind : Type :=
  | FigOverlay (survey : string)
  | FigMom0
  | FigSnr
  | FigMom1
  | FigColor (survey : string)
  | FigPV.

Inductive layer : Type :=
  | Gray (d : image)
  | Colour (c : PILImage).

(** What a figure step hands to the renderer. *)
Record figure : Type := mkFigure {
  fig_kind : figure_kind;
  fig_projection : Header;
  fig_layer : layer;
  fig_patch : option Patch;
  fig_levels : list value
}.

Inductive content : Type :=
  | Fits (h : hdu)
  | Figure (f : figure).

(** The lines the code prints, with their arguments. *)
Inductive message : Type :=
  | MsgStart (i : N) (n : string)
  | MsgFirstContour (band : value * value) (level : value)
  | MsgNoSnrMom0
  | MsgBiggerThanDefault (v : Q)
  | MsgRetrieved (survey : string)
  | MsgNoImage (survey : string)
  | MsgPanstarrsRetrieved
  | MsgNoPanstarrs
  | MsgNoDecals
  | MsgNotASurvey (survey : string)
  | MsgHttp404 (survey : string)
  | MsgMakingOverlay (survey : string)
  | MsgMakingMom0
  | MsgMakingSnr
  | MsgMakingMom1
  | MsgMakingColor (survey : string)
  | MsgMakingPv
  | MsgNoMom0
  | MsgNoSnr
  | MsgNoMom1
  | MsgNoPv
  | MsgExists (outfile : string)
  | MsgDone (i : N) (n : string).

(** ** The world and the monad of effects *)

Record world : Type := mkWorld {
  fs : gmap string content;       (* the files on disk *)
  surveys : list string;          (* the caller's list object *)
  handles : list string;          (* paths of the FITS handles now open *)
  stdout : list message;          (* printed lines, oldest first *)
  savefigs : list (string * figure) (* every [fig.savefig], oldest first *)
}.

Inductive exn : Type :=
  | FileNotFoundError
  | ValueError
  | HTTPError
  | TypeError
  | IndexError
  | OSError
  | UnboundLocalError.

Global Instance exn_eq_dec : EqDecision exn.
Proof. solve_decision. Defined.

Inductive result (A : Type) : Type :=
  | Ok (a : A)
  | Raise (e : exn).
Arguments Ok {A} a.
Arguments Raise {A} e.

Definition M (A : Type) : Type := world -> result A * world.

Definition ret {A} (a : A) : M A := fun w => (Ok a, w).

Definition bind {A B} (m : M A) (f : A -> M B) : M B :=
  fun w => match m w with
           | (Ok a, w') => f a w'
           | (Raise e, w') => (Raise e, w')
           end.

Definition raise {A} (e : exn) : M A := fun w => (Raise e, w).

(** [try: m] with the [except] clauses [h]: [h e] is the clause that
    catches [e], if there is one. *)
Definition try_catch {A} (m : M A) (h : exn -> option (M A)) : M A :=
  fun w => match m w with
           | (Raise e, w') => match h e with
                              | Some k => k w'
                              | None => (Raise e, w')
                              end
           | r => r
           end.

(** [try: m  except e: h]. *)
Definition try_except {A} (m : M A) (e : exn) (h : M A) : M A :=
  try_catch m (fun e' => if bool_decide (e' = e) then Some h else None).

(** Runs [fin] after [m] whatever [m] does, as a context manager's exit. *)
Definition finally {A} (m : M A) (fin : M unit) : M A :=
  fun w => match m w with
           | (r, w') => match fin w' with
                        | (Ok _, w'') => (r, w'')
                        | (Raise e, w'') => (Raise e, w'')
                        end
           end.

(** A pure computation that can raise. *)
Definition lift {A} (r : result A) : M A := fun w => (r, w).

(** [ax.contour(z, levels=levels)] as far as it can fail: matplotlib raises
    [TypeError] for an array smaller than 2 x 2 and then [ValueError] for
    levels that are not increasing. *)
Definition contour_check (z : image) (levels : list value) : result unit :=
  if negb (at_least_2x2 z) then Raise TypeError
  else if not_increasing levels then Raise ValueError
  else Ok tt.

Notation "x <- m ;; k" := (bind m (fun x => k))
  (at level 100, m at next level, right associativity,
   format "'[v' x  <-  m  ;;  '/' k ']'").
Notation "m ;; k" := (bind m (fun _ => k))
  (at level 100, right associativity).

(** Reads the caller's list as it is now. *)
Definition get_surveys : M (list string) := fun w => (Ok (surveys w), w).

Definition print (m : message) : M unit :=
  fun w => (Ok tt, mkWorld (fs w) (surveys w) (handles w) (stdout w ++ [m]) (savefigs w)).

(** [os.path.isfile(path)]. *)
Definition isfile (path : string) : M bool :=
  fun w => (Ok (match fs w !! path with Some _ => true | None => false end), w).

(** [fits.open(path)]: the handle stays open until it is closed. *)
Definition fits_open (path : string) : M hdu :=
  fun w => match fs w !! path with
           | Some (Fits h) =>
               (Ok h, mkWorld (fs w) (surveys w) (path :: handles w) (stdout w) (savefigs w))
           | Some (Figure _) => (Raise OSError, w)
           | None => (Raise FileNotFoundError, w)
           end.

Fixpoint remove_handle (path : string) (l : list string) : list string :=
  match l with
  | [] => []
  | p :: l' => if String.eqb p path then l' else p :: remove_handle path l'
  end.

(** [hdulist.close()]. *)
Definition fits_close (path : string) : M unit :=
  fun w => (Ok tt, mkWorld (fs w) (surveys w) (remove_handle path (handles w))
                           (stdout w) (savefigs w)).

(** [with fits.open(path) as h: body]. *)
Definition with_fits {A} (path : string) (body : hdu -> M A) : M A :=
  h <- fits_open path ;;
  finally (body h) (fits_close path).

(** [fig.savefig(outfile)]. *)
Definition savefig (outfile : string) (f : figure) : M unit :=
  fun w => (Ok tt, mkWorld (<[outfile := Figure f]> (fs w)) (surveys w) (handles w)
                           (stdout w) (savefigs w ++ [(outfile, f)])).

(** [surveys[0]]. *)
Definition surveys_head : M string :=
  fun w => match surveys w with
           | s :: _ => (Ok s, w)
           | [] => (Raise IndexError, w)
           end.

(** [surveys.remove(x)], on the caller's list. *)
Definition surveys_remove (x : string) : M unit :=
  fun w => match py_remove x (surveys w) with
           | Some l => (Ok tt, mkWorld (fs w) l (handles w) (stdout w) (savefigs w))
           | None => (Raise ValueError, w)
           end.

(** ** What the pipeline takes from outside

    [modules.functions], [modules.get_hst_cosmos] and
    [modules.panstarrs_fcns] are not part of this source tree; with the
    network services, [reproject], the spectral equivalencies of [astropy]
    and [np.nanstd] they are the capabilities the code is parametric in. *)

Definition Beam : Type := list Q.

Class Capabilities : Type := {
  get_info : string -> option Beam -> result CubeParams;
  chan2freq : Q -> string -> result value;
  chan2vel : Q -> string -> result value;
  get_hst_cosmos : Source -> Quantity -> option hdu;
  SkyView_get_images : SkyCoord -> string -> Quantity -> string -> Z -> result (list hdu);
  geturl : Q -> Q -> Z -> list string;
  getcolorim : Q -> Q -> Z -> PILImage;
  fits_getheader : string -> result Header;
  requests_get_image : string -> result PILImage;
  format_float : Q -> string;
  transform_to_icrs : SkyCoord -> SkyCoord;
  hz_to_kms : value -> value;
  reproject_interp : hdu -> Header -> image * image;
  np_nanstd : image -> value
}.

(** ** [modules/get_ancillary.py] *)

Section Ancillary.
Context `{Capabilities}.

Definition get_skyview (hi_pos : SkyCoord) (opt_view : Quantity) (survey : string)
  : M (option hdu) :=
  let opt_pixels := py_int (qvalue (to opt_view arcsec) * 2) in
  let coordinates :=
    match sc_equinox hi_pos with
    | None => "ICRS"
    | Some e => if String.eqb (sc_frame hi_pos) "icrs" then "ICRS" else e
    end in
  path <- lift (SkyView_get_images hi_pos coordinates opt_view survey opt_pixels) ;;
  match path with
  | im :: _ => print (MsgRetrieved survey) ;; ret (Some im)
  | [] => print (MsgNoImage survey) ;; ret None
  end.

Definition get_panstarrs (hi_pos : SkyCoord) (opt_view : Quantity)
  : M (option PILImage * option Header) :=
  let pstar_pixsc := 25 # 100 in
  let size := py_int (qvalue (to opt_view arcsec) / pstar_pixsc) in
  match geturl (sc_ra hi_pos) (sc_dec hi_pos) size with
  | p0 :: _ =>
      fits_head <- lift (fits_getheader p0) ;;
      let color_im := getcolorim (sc_ra hi_pos) (sc_dec hi_pos) size in
      print MsgPanstarrsRetrieved ;;
      ret (Some color_im, Some fits_head)
  | [] =>
      print MsgNoPanstarrs ;;
      ret (None, None)
  end.

(** [s.split(sep)[0]]. *)
Fixpoint str_before (sep s : string) : string :=
  match s with
  | EmptyString => EmptyString
  | String c s' => if String.prefix sep s then EmptyString else String c (str_before sep s')
  end.

Definition decals_url (hi_pos : SkyCoord) (pixscale : Q) (dimen : Z) : string :=
  "https://www.legacysurvey.org/viewer/cutout.fits?ra=" +:+ format_float (sc_ra hi_pos)
  +:+ "&dec=" +:+ format_float (sc_dec hi_pos) +:+ "&layer=ls-dr9&pixscale="
  +:+ format_float pixscale +:+ "&height=" +:+ pretty dimen +:+ "&width=" +:+ pretty dimen
  +:+ "&bands=g".

Definition get_decals (hi_pos : SkyCoord) (opt_view : Quantity)
  : M (option PILImage * option Header) :=
  let pixscale := 262 # 1000 in
  let dimen := py_int (qvalue (to opt_view arcsec) / pixscale) in
  let url := decals_url hi_pos pixscale dimen in
  try_except
    (fits_head <- lift (fits_getheader url) ;;
     color_im <- lift (requests_get_image (str_before "bands" (str_replace "fits" "jpg" url))) ;;
     ret (Some color_im, Some fits_head))
    HTTPError
    (print MsgNoDecals ;; ret (None, None)).

End Ancillary.

(** ** [src/make_images.py]: the figure steps *)

Section Figures.
Context `{Capabilities}.

(** [src_basename + '_{}<tail>'.format(source['id'])]. *)
Definition product_path (src_basename : string) (source : Source) (tail : string) : string :=
  src_basename +:+ "_" +:+ pretty (id source) +:+ tail.

(** [src_basename.replace('cubelets', 'figures') + '_{}<tail>.{}'.format(id, suffix)]. *)
Definition figure_path (src_basename : string) (source : Source) (tail suffix : string)
  : string :=
  str_replace "cubelets" "figures" src_basename +:+ "_" +:+ pretty (id source) +:+ tail
  +:+ "." +:+ suffix.

(** [try: print(m); h = fits.open(path)  except FileNotFoundError: print(m'); return]:
    [None] stands for the early return. *)
Definition open_or_return (m : message) (path : string) (m' : message) : M (option hdu) :=
  try_except (print m ;; h <- fits_open path ;; ret (Some h))
             FileNotFoundError
             (print m' ;; ret None).

Definition make_overlay (source : Source) (src_basename : string) (cube_params : CubeParams)
    (patch : Patch) (opt : option hdu) (base_contour : value) (suffix survey : string)
  : M unit :=
  let survey_nospace := str_lower (str_replace " " "" survey) in
  let outfile := figure_path src_basename source ("_mom0" +:+ survey_nospace) suffix in
  let mom0 := product_path src_basename source "_mom0.fits" in
  there <- isfile outfile ;;
  if negb there then
    r <- open_or_return (MsgMakingOverlay survey) mom0 MsgNoMom0 ;;
    match r with
    | None => ret tt
    | Some hdulist_hi =>
        match opt with
        | None => raise TypeError
        | Some o =>
            lift (contour_check (data hdulist_hi) (contour_ladder base_contour)) ;;
            savefig outfile
              (mkFigure (FigOverlay survey) (header o) (Gray (data o)) (Some patch)
                        (contour_ladder base_contour)) ;;
            fits_close mom0
        end
    end
  else print (MsgExists outfile).

Definition make_mom0 (source : Source) (src_basename : string) (cube_params : CubeParams)
    (patch : Patch) (opt_head : Header) (base_contour : value) (suffix : string) : M unit :=
  let outfile := figure_path src_basename source "_mom0hi" suffix in
  let mom0 := product_path src_basename source "_mom0.fits" in
  there <- isfile outfile ;;
  if negb there then
    r <- open_or_return MsgMakingMom0 mom0 MsgNoMom0 ;;
    match r with
    | None => ret tt
    | Some hdulist_hi =>
        let '(hi_reprojected, footprint) := reproject_interp hdulist_hi opt_head in
        lift (contour_check hi_reprojected (contour_ladder base_contour)) ;;
        savefig outfile
          (mkFigure FigMom0 opt_head (Gray hi_reprojected) (Some patch)
                    (contour_ladder base_contour)) ;;
        fits_close mom0
    end
  else print (MsgExists outfile).

Definition make_snr (source : Source) (src_basename : string) (cube_params : CubeParams)
    (patch : Patch) (opt_head : Header) (base_contour : value) (suffix : string) : M unit :=
  let outfile := figure_path src_basename source "_snr" suffix in
  let snr := product_path src_basename source "_snr.fits" in
  let mom0 := product_path src_basename source "_mom0.fits" in
  there <- isfile outfile ;;
  if negb there then
    r <- open_or_return MsgMakingSnr snr MsgNoSnr ;;
    match r with
    | None => ret tt
    | Some hdulist_snr =>
        hdulist_hi <- fits_open mom0 ;;
        let '(snr_reprojected, footprint) := reproject_interp hdulist_snr opt_head in
        let '(hi_reprojected, footprint) := reproject_interp hdulist_hi opt_head in
        lift (contour_check hi_reprojected [base_contour]) ;;
        savefig outfile
          (mkFigure FigSnr opt_head (Gray snr_reprojected) (Some patch) [base_contour]) ;;
        fits_close mom0
    end
  else print (MsgExists outfile).

(** [(v * u.m / u.s).to(u.km / u.s).value]. *)
Definition ms_to_kms (v : value) : value := vmul v (Num (1 # 1000)).

(** The systemic velocity and the velocity range of [make_mom1], in km/s. *)
Definition mom1_velocities (source : Source) (src_basename : string) (sofia : Z)
  : M (value * value * value) :=
  match spectral source with
  | FreqCol f =>
      let v_sys := hz_to_kms f in
      fr <- (if (sofia =? 2)%Z then
               freqmin <- lift (chan2freq (z_min source)
                                  (product_path src_basename source "_cube.fits")) ;;
               freqmax <- lift (chan2freq (z_max source)
                                  (product_path src_basename source "_cube.fits")) ;;
               ret (freqmin, freqmax)
             else if (sofia =? 1)%Z then
               freqmin <- lift (chan2freq (z_min source)
                                  (product_path src_basename source ".fits")) ;;
               freqmax <- lift (chan2freq (z_max source)
                                  (product_path src_basename source ".fits")) ;;
               ret (freqmin, freqmax)
             else raise UnboundLocalError) ;;
      let velmax := vadd (hz_to_kms (fst fr)) (Num 5) in
      let velmin := vsub (hz_to_kms (snd fr)) (Num 5) in
      ret (v_sys, velmin, velmax)
  | VCol v =>
      let v_sys := ms_to_kms v in
      vmin <- lift (chan2vel (z_min source) (product_path src_basename source "_cube.fits")) ;;
      let velmin := vadd (ms_to_kms vmin) (Num 5) in
      vmax <- lift (chan2vel (z_max source) (product_path src_basename source "_cube.fits")) ;;
      let velmax := vsub (ms_to_kms vmax) (Num 5) in
      ret (v_sys, velmin, velmax)
  end.

(** The moment map in km/s, pixel by pixel. *)
Definition mom1_to_kms (source : Source) (d : image) : image :=
  match spectral source with
  | FreqCol _ => map (map hz_to_kms) d
  | VCol _ => map (map ms_to_kms) d
  end.

(** The iso-velocity contour levels of the velocity map. *)
Definition mom1_levels (v_sys velmin velmax : value) : list value :=
  if vgt (vabs (vsub velmax velmin)) (Num 200)
  then [vsub v_sys (Num 100); vsub v_sys (Num 50); v_sys;
        vadd v_sys (Num 50); vadd v_sys (Num 100)]
  else [vsub v_sys (Num 50); v_sys; vadd v_sys (Num 50)].

(** [mom1_reprojected[hi_reprojected < HIlowest] = np.nan]. *)
Definition mask_below (mom1_reprojected hi_reprojected : image) (HIlowest : value)
  : option image :=
  mask_assign mom1_reprojected (arr_lt hi_reprojected HIlowest) NaN.

Definition make_mom1 (source : Source) (src_basename : string) (cube_params : CubeParams)
    (patch : Patch) (opt_head : Header) (HIlowest : value) (opt_view : Quantity)
    (suffix : string) (sofia : Z) : M unit :=
  let outfile := figure_path src_basename source "_mom1" suffix in
  let mom0 := product_path src_basename source "_mom0.fits" in
  let mom1_file := product_path src_basename source "_mom1.fits" in
  there <- isfile outfile ;;
  if negb there then
    r <- open_or_return MsgMakingMom1 mom1_file MsgNoMom1 ;;
    match r with
    | None => ret tt
    | Some mom1 =>
        let mom1_kms := mkHdu (header mom1) (mom1_to_kms source (data mom1)) in
        vs <- mom1_velocities source src_basename sofia ;;
        let '(v_sys, velmin, velmax) := vs in
        let '(mom1_reprojected, footprint) := reproject_interp mom1_kms opt_head in
        hdulist_hi <- fits_open mom0 ;;
        let '(hi_reprojected, footprint) := reproject_interp hdulist_hi opt_head in
        match mask_below mom1_reprojected hi_reprojected HIlowest with
        | None => raise IndexError
        | Some masked =>
            lift (contour_check masked (mom1_levels v_sys velmin velmax)) ;;
            savefig outfile
              (mkFigure FigMom1 opt_head (Gray masked) (Some patch)
                        (mom1_levels v_sys velmin velmax)) ;;
            fits_close mom1_file
        end
    end
  else print (MsgExists outfile).

Definition make_color_im (source : Source) (src_basename : string) (cube_params : CubeParams)
    (patch : Patch) (color_im : option PILImage) (opt_head : option Header)
    (base_contour : value) (suffix survey : string) : M unit :=
  let outfile := figure_path src_basename source ("_mom0" +:+ survey) suffix in
  let mom0 := product_path src_basename source "_mom0.fits" in
  let shown := if String.eqb survey "panstarrs" then "PanSTARRS"
               else if String.eqb survey "decals" then "DECaLS" else survey in
  there <- isfile outfile ;;
  if negb there then
    print (MsgMakingColor shown) ;;
    hdulist_hi <- fits_open mom0 ;;
    match opt_head with
    | None => raise TypeError
    | Some head =>
        let '(hi_reprojected, footprint) := reproject_interp hdulist_hi head in
        match color_im with
        | None => raise TypeError
        | Some im =>
            lift (contour_check hi_reprojected (contour_ladder base_contour)) ;;
            savefig outfile
              (mkFigure (FigColor survey) head (Colour im) (Some patch)
                        (contour_ladder base_contour))
        end
    end
  else print (MsgExists outfile).

(** [[-2 * pv_rms, 2 * pv_rms, 4 * pv_rms]]. *)
Definition pv_levels (pv_rms : value) : list value :=
  [vmul (Num (-2)) pv_rms; vmul (Num 2) pv_rms; vmul (Num 4) pv_rms].

Definition make_pv (source : Source) (src_basename : string) (cube_params : CubeParams)
    (suffix : string) : M unit :=
  let outfile := figure_path src_basename source "_pv" suffix in
  let pv_file := product_path src_basename source "_pv.fits" in
  there <- isfile outfile ;;
  if negb there then
    r <- open_or_return MsgMakingPv pv_file MsgNoPv ;;
    match r with
    | None => ret tt
    | Some pv =>
        let pv_rms := np_nanstd (data pv) in
        lift (contour_check (data pv) (pv_levels pv_rms)) ;;
        savefig outfile
          (mkFigure FigPV (header pv) (Gray (data pv)) None (pv_levels pv_rms)) ;;
        fits_close pv_file
    end
  else print (MsgExists outfile).

End Figures.

(** ** [src/make_images.py]: [main] *)

Section Main.
Context `{Capabilities}.

(** [np.median(hi[(snr > snr_range[0]) * (snr < snr_range[1])])]. *)
Definition HIlowest_of (hi snr : image) (snr_range : value * value) : result value :=
  match bool_index hi (mask_mul (arr_gt snr (fst snr_range)) (arr_lt snr (snd snr_range))) with
  | Some selected => Ok (np_median selected)
  | None => Raise IndexError
  end.

(** The default of [snr_range]. *)
Definition default_snr_range : value * value := (Num 2, Num 3).

(** The default of [opt_view]. *)
Definition default_opt_view : Quantity := mkQuantity 6 arcmin.

(** The base contour; [None] stands for the early [return] of [main]. *)
Definition base_contour_step (source : Source) (src_basename : string)
    (snr_range : value * value) : M (option value) :=
  try_except
    (HIlowest <- with_fits (product_path src_basename source "_snr.fits") (fun hdulist_snr =>
                   with_fits (product_path src_basename source "_mom0.fits") (fun hdulist_hi =>
                     lift (HIlowest_of (data hdulist_hi) (data hdulist_snr) snr_range))) ;;
     print (MsgFirstContour snr_range HIlowest) ;;
     ret (Some HIlowest))
    FileNotFoundError
    (print MsgNoSnrMom0 ;; ret None).

Definition Xsize (source : Source) (cube_params : CubeParams) : list Q :=
  [qvalue (to (qscale (x_max source - x source) (cellsize cube_params)) arcmin);
   qvalue (to (qscale (x source - x_min source) (cellsize cube_params)) arcmin)].

Definition Ysize (source : Source) (cube_params : CubeParams) : list Q :=
  [qvalue (to (qscale (y_max source - y source) (cellsize cube_params)) arcmin);
   qvalue (to (qscale (y source - y_min source) (cellsize cube_params)) arcmin)].

(** [np.any(sizes > t)]. *)
Definition any_gt (sizes : list Q) (t : Q) : bool := existsb (fun s => Qltb t s) sizes.

Definition qmax (a b : Q) : Q := if Qle_bool a b then b else a.

(** [np.max] of a flattened array. *)
Definition np_max (l : list Q) : Q :=
  match l with
  | [] => 0
  | a :: l' => fold_left qmax l' a
  end.

(** The size of the survey image: the field of view in [main]. *)
Definition field_of_view (source : Source) (cube_params : CubeParams) (opt_view : Quantity)
  : Quantity :=
  if any_gt (Xsize source cube_params) (qvalue opt_view / 2)
     || any_gt (Ysize source cube_params) (qvalue opt_view / 2)
  then mkQuantity (np_max (Xsize source cube_params ++ Ysize source cube_params)
                   * 2 * (105 # 100)) arcmin
  else opt_view.

Definition hst_field_of_view (source : Source) (cube_params : CubeParams) : Quantity :=
  let hst_opt_view := mkQuantity 40 arcsec in
  if any_gt (Xsize source cube_params) (qvalue (to hst_opt_view arcmin) / 2)
     || any_gt (Ysize source cube_params) (qvalue (to hst_opt_view arcmin) / 2)
  then to (mkQuantity (np_max (Xsize source cube_params ++ Ysize source cube_params)
                       * 2 * (105 # 100)) arcmin) arcsec
  else hst_opt_view.

(** The beam as a fraction of the image size. *)
Definition beam_patch (cube_params : CubeParams) (opt_view : Quantity) : Patch :=
  mkPatch (qratio (bmin cube_params) opt_view) (qratio (bmaj cube_params) opt_view).

(** The local variables of [main] that the survey blocks assign. *)
Record Locals : Type := mkLocals {
  opt_head : option Header;
  opt_view : Quantity;
  patch : Patch
}.

Definition set_opt_head (l : Locals) (h : option Header) : Locals :=
  mkLocals h (opt_view l) (patch l).

(** [if opt_head:] holds for a header that is not [None] and not empty. *)
Definition truthy (h : option Header) : bool :=
  match h with
  | Some (_ :: _) => true
  | _ => false
  end.

Section Blocks.
Variables (source : Source) (src_basename : string) (cube_params : CubeParams).
Variables (hi_pos_icrs : SkyCoord) (HIlowest : value) (suffix : string).

(** For CHILES: plot HI contours on HST image if desired. *)
Definition hst_block (l : Locals) : M Locals :=
  now <- get_surveys ;;
  if py_in "hst" now || py_in "HST" now then
    let hst_opt_view := hst_field_of_view source cube_params in
    let hst_opt := get_hst_cosmos source hst_opt_view in
    let patch_hst := beam_patch cube_params hst_opt_view in
    match hst_opt with
    | Some _ => make_overlay source src_basename cube_params patch_hst hst_opt HIlowest
                             suffix "hst"
    | None => ret tt
    end ;;
    s0 <- surveys_head ;;
    l' <- (if String.eqb s0 "hst"
           then match hst_opt with
                | Some o => ret (mkLocals (Some (header o)) hst_opt_view patch_hst)
                | None => raise TypeError
                end
           else ret l) ;;
    surveys_remove "hst" ;;
    ret l'
  else ret l.

(** Create a false color optical panstarrs overlay, if requested. *)
Definition panstarrs_block (l : Locals) : M Locals :=
  now <- get_surveys ;;
  if py_in "panstarrs" now then
    r <- get_panstarrs hi_pos_icrs (opt_view l) ;;
    let '(pstar_im, pstar_head) := r in
    match pstar_im with
    | Some _ => make_color_im source src_basename cube_params (patch l) pstar_im pstar_head
                              HIlowest suffix "panstarrs"
    | None => ret tt
    end ;;
    s0 <- surveys_head ;;
    let l' := if String.eqb s0 "panstarrs" then set_opt_head l pstar_head else l in
    surveys_remove "panstarrs" ;;
    ret l'
  else ret l.

(** If requested plot HI contours on DECaLS imaging. *)
Definition decals_block (l : Locals) : M Locals :=
  now <- get_surveys ;;
  if py_in "decals" now then
    r <- get_decals hi_pos_icrs (opt_view l) ;;
    let '(decals_im, decals_head) := r in
    make_color_im source src_basename cube_params (patch l) decals_im decals_head
                  HIlowest suffix "decals" ;;
    s0 <- surveys_head ;;
    let l' := if String.eqb s0 "decals" then set_opt_head l decals_head else l in
    surveys_remove "decals" ;;
    ret l'
  else ret l.

(** The body of the loop over the SkyView surveys, with its [except] clauses. *)
Definition skyview_iteration (survey : string) (l : Locals) : M Locals :=
  try_catch
    (overlay_image <- get_skyview hi_pos_icrs (opt_view l) survey ;;
     make_overlay source src_basename cube_params (patch l) overlay_image HIlowest
                  suffix survey ;;
     s0 <- surveys_head ;;
     if String.eqb s0 survey
     then match overlay_image with
          | Some o => ret (set_opt_head l (Some (header o)))
          | None => raise TypeError
          end
     else ret l)
    (fun e => match e with
              | ValueError => Some (print (MsgNotASurvey survey) ;; ret l)
              | HTTPError => Some (print (MsgHttp404 survey) ;; ret l)
              | _ => None
              end).

Fixpoint skyview_loop (todo : list string) (l : Locals) : M Locals :=
  match todo with
  | [] => ret l
  | survey :: rest => l' <- skyview_iteration survey l ;; skyview_loop rest l'
  end.

(** [for survey in surveys:]; the body leaves the list as it is. *)
Definition skyview_block (l : Locals) : M Locals :=
  now <- get_surveys ;;
  skyview_loop now l.

(** The survey blocks of [main], in the order of the code. *)
Definition survey_blocks (l : Locals) : M Locals :=
  l1 <- hst_block l ;;
  l2 <- panstarrs_block l1 ;;
  l3 <- decals_block l2 ;;
  skyview_block l3.

(** Make the rest of the images if there is a survey image to regrid to. *)
Definition grid_block (l : Locals) : M unit :=
  match opt_head l with
  | Some (c :: head) =>
      make_mom0 source src_basename cube_params (patch l) (c :: head) HIlowest suffix ;;
      make_snr source src_basename cube_params (patch l) (c :: head) HIlowest suffix ;;
      make_mom1 source src_basename cube_params (patch l) (c :: head) HIlowest (opt_view l)
                suffix 2
  | _ => ret tt
  end.

End Blocks.

(** [source['ra'] = ...; source['dec'] = ...]. *)
Definition set_position (source : Source) (pos : SkyCoord) : Source :=
  mkSource (id source) (name source) (sc_ra pos) (sc_dec pos) (x source) (y source)
           (x_min source) (x_max source) (y_min source) (y_max source)
           (z_min source) (z_max source) (kin_pa source) (spectral source).

(** Everything [main] does after the base contour and before [make_pv]. *)
Definition main_images (source : Source) (src_basename : string)
    (cube_params : option CubeParams) (opt_view : Quantity) (suffix : string)
    (HIlowest : value) : M (Source * CubeParams * Locals) :=
  cp <- match cube_params with
        | Some cp => ret cp
        | None => raise UnboundLocalError
        end ;;
  let hi_pos := mkSkyCoord (ra source) (dec source) (frame cp) (equinox cp) in
  let hi_pos_icrs := transform_to_icrs hi_pos in
  let view := field_of_view source cp opt_view in
  (if any_gt (Xsize source cp) (qvalue opt_view / 2)
      || any_gt (Ysize source cp) (qvalue opt_view / 2)
   then print (MsgBiggerThanDefault (qvalue view)) else ret tt) ;;
  let source' := set_position source hi_pos_icrs in
  let l0 := mkLocals None view (beam_patch cp view) in
  l <- survey_blocks source' src_basename cp hi_pos_icrs HIlowest suffix l0 ;;
  grid_block source' src_basename cp HIlowest suffix l ;;
  ret (source', cp, l).

(** [main]: [Some true] is [return True], [None] the bare [return]. *)
Definition main (source : Source) (src_basename : string) (opt_view : Quantity)
    (suffix : string) (sofia : Z) (beam : option Beam) (snr_range : value * value)
  : M (option bool) :=
  print (MsgStart (id source) (name source)) ;;
  cube_params <- (if (sofia =? 2)%Z then
                    cp <- lift (get_info (product_path src_basename source "_cube.fits") beam) ;;
                    ret (Some cp)
                  else if (sofia =? 1)%Z then
                    cp <- lift (get_info (product_path src_basename source ".fits") beam) ;;
                    ret (Some cp)
                  else ret None) ;;
  r <- base_contour_step source src_basename snr_range ;;
  match r with
  | None => ret None
  | Some HIlowest =>
      r' <- main_images source src_basename cube_params opt_view suffix HIlowest ;;
      let '(source', cp, l) := r' in
      make_pv source' src_basename cp suffix ;;
      print (MsgDone (id source') (name source')) ;;
      ret (Some true)
  end.

End Main.

(** ** The vocabulary of the specification *)

(** The value of an array at a pixel coordinate. *)
Definition pixel (a : image) (i j : nat) : option value :=
  match a !! i with
  | Some row => row !! j
  | None => None
  end.

(** The pixel coordinates of an array, row by row. *)
Definition coords (a : image) : list (nat * nat) :=
  concat (imap (fun i row => imap (fun j _ => (i, j)) row) a).

(** A coordinate whose significance lies strictly inside the band. *)
Definition in_band (significance_map : image) (band : value * value) (ij : nat * nat) : bool :=
  match pixel significance_map ij.1 ij.2 with
  | Some s => vlt (fst band) s && vlt s (snd band)
  | None => false
  end.

Definition band_coords (significance_map : image) (band : value * value)
  : list (nat * nat) :=
  List.filter (in_band significance_map band) (coords significance_map).

(** The base contour in the words of the specification: the median of the
    intensity map over the coordinates whose significance is in the band. *)
Definition compute_base_contour (intensity_map significance_map : image)
    (band : value * value) : value :=
  np_median (map (fun ij => default NaN (pixel intensity_map ij.1 ij.2))
                 (band_coords significance_map band)).

(** A pixel distance as an angle in arcmin. *)
Definition to_arcmin (cube_params : CubeParams) (pixels : Q) : Q :=
  qvalue (to (qscale pixels (cellsize cube_params)) arcmin).

(** The angular extent of a source: per axis the larger of (max - center)
    and (center - min), and the larger of the two axes. *)
Definition angular_extent (source : Source) (cube_params : CubeParams) : Q :=
  qmax (qmax (to_arcmin cube_params (x_max source - x source))
             (to_arcmin cube_params (x source - x_min source)))
       (qmax (to_arcmin cube_params (y_max source - y source))
             (to_arcmin cube_params (y source - y_min source))).

(** Two values that are the same number. *)
Definition veq (a b : value) : Prop :=
  match a, b with
  | Num x, Num y => (x == y)%Q
  | NaN, NaN => True
  | _, _ => False
  end.

(** The product of two values in the words of the specification. *)
Definition times (a b : value) : value :=
  match a, b with
  | Num x, Num y => Num (x * y)
  | _, _ => NaN
  end.

(** A level of the ladder [C * 2^0, ..., C * 2^9]. *)
Definition on_ladder (C lev : value) : Prop :=
  exists k, (k < 10)%nat /\ veq lev (times C (Num (inject_Z (2 ^ Z.of_nat k)))).

(** The ladder [C * 2^0, ..., C * 2^9] itself: ten levels, the [k]-th of
    which is [C * 2^k]. *)
Definition is_ladder (C : value) (levels : list value) : Prop :=
  length levels = 10%nat
  /\ forall k lev, levels !! k = Some lev ->
                   veq lev (times C (Num (inject_Z (2 ^ Z.of_nat k)))).

(** The world [w] with the caller's list set to [l] again. *)
Definition with_surveys (l : list string) (w : world) : world :=
  mkWorld (fs w) l (handles w) (stdout w) (savefigs w).

(** A figure step does nothing but say so when its output file is there. *)
Definition skipped_when_there (outfile : string) (m : M unit) : Prop :=
  forall w, is_Some (fs w !! outfile) -> m w = (Ok tt, (print (MsgExists outfile) w).2).

(** The output file of [make_overlay] for a survey. *)
Definition overlay_path (src_basename : string) (source : Source) (suffix survey : string)
  : string :=
  figure_path src_basename source ("_mom0" +:+ str_lower (str_replace " " "" survey)) suffix.

(** As long as the intensity product [hm] is there, no file is written. *)
Definition frozen (source : Source) (src_basename : string) (hm : hdu) (w w' : world) : Prop :=
  fs w !! product_path src_basename source "_mom0.fits" = Some (Fits hm) -> fs w' = fs w.

(** [l.remove(x)] where it does not raise; the list as it is otherwise. *)
Definition drop_first (x : string) (l : list string) : list string :=
  default l (py_remove x l).

(** ** Relations between the world before and after a step *)

Section Relations.
Context `{Capabilities}.

(** The query that [get_skyview] sends for a survey. *)
Definition skyview_query (hi_pos : SkyCoord) (view : Quantity) (survey : string)
  : result (list hdu) :=
  SkyView_get_images hi_pos
    match sc_equinox hi_pos with
    | None => "ICRS"
    | Some e => if String.eqb (sc_frame hi_pos) "icrs" then "ICRS" else e
    end
    view survey (py_int (qvalue (to view arcsec) * 2)).


(** The systemic velocity of the source in km/s. *)
Definition systemic_velocity (source : Source) : value :=
  match spectral source with
  | FreqCol f => hz_to_kms f
  | VCol v => times v (Num (1 # 1000))
  end.

(** The contour levels each kind of figure is drawn with, for a source with
    base contour [C]. *)
Definition levels_as_designed (source : Source) (C : value) (f : figure) : Prop :=
  match fig_kind f with
  | FigOverlay _ | FigMom0 | FigColor _ => is_ladder C (fig_levels f)
  | FigSnr => fig_levels f = [C]
  | FigMom1 =>
      let v := systemic_velocity source in
      fig_levels f = [vsub v (Num 100); vsub v (Num 50); v; vadd v (Num 50); vadd v (Num 100)]
      \/ fig_levels f = [vsub v (Num 50); v; vadd v (Num 50)]
  | FigPV =>
      exists d, fig_layer f = Gray d
                /\ fig_levels f = [times (Num (-2)) (np_nanstd d);
                                   times (Num 2) (np_nanstd d);
                                   times (Num 4) (np_nanstd d)]
  end.

(** What each figure step may hand to [savefig] for a source with base
    contour [C]: the output path and the figure drawn. The figures with the
    ladder of [C] are drawn only when the renderer takes the ladder. *)
Inductive drawn (source : Source) (src_basename suffix : string) (C : value)
  : string * figure -> Prop :=
  | drawn_overlay survey o p :
      not_increasing (contour_ladder C) = false ->
      drawn source src_basename suffix C
        (figure_path src_basename source
           ("_mom0" +:+ str_lower (str_replace " " "" survey)) suffix,
         mkFigure (FigOverlay survey) (header o) (Gray (data o)) (Some p) (contour_ladder C))
  | drawn_mom0 head d p :
      not_increasing (contour_ladder C) = false ->
      drawn source src_basename suffix C
        (figure_path src_basename source "_mom0hi" suffix,
         mkFigure FigMom0 head (Gray d) (Some p) (contour_ladder C))
  | drawn_snr head d p :
      drawn source src_basename suffix C
        (figure_path src_basename source "_snr" suffix,
         mkFigure FigSnr head (Gray d) (Some p) [C])
  | drawn_mom1 head d p velmin velmax :
      drawn source src_basename suffix C
        (figure_path src_basename source "_mom1" suffix,
         mkFigure FigMom1 head (Gray d) (Some p)
                  (mom1_levels (systemic_velocity source) velmin velmax))
  | drawn_color survey head im p :
      not_increasing (contour_ladder C) = false ->
      drawn source src_basename suffix C
        (figure_path src_basename source ("_mom0" +:+ survey) suffix,
         mkFigure (FigColor survey) head (Colour im) (Some p) (contour_ladder C))
  | drawn_pv pv :
      drawn source src_basename suffix C
        (figure_path src_basename source "_pv" suffix,
         mkFigure FigPV (header pv) (Gray (data pv)) None
                  (pv_levels (np_nanstd (data pv)))).

(** The world only grows: every file keeps its content, every [savefig]
    of the step went to a path that was free and satisfies [P], and every
    new file is one of these figures. *)
Definition grows (P : string * figure -> Prop) (w w' : world) : Prop :=
  fs w ⊆ fs w'
  /\ exists new,
      savefigs w' = savefigs w ++ new
      /\ Forall P new
      /\ Forall (fun pf => fs w !! pf.1 = None) new
      /\ (forall p c, fs w !! p = None -> fs w' !! p = Some c ->
                      exists f, c = Figure f /\ (p, f) ∈ new).

(** Every run of [m] relates the world before to the world after by [T]. *)
Definition preserves {A} (T : world -> world -> Prop) (m : M A) : Prop :=
  forall w r w', m w = (r, w') -> T w w'.

(** Nothing that the properties below look at has changed. *)
Definition quiet (w w' : world) : Prop :=
  fs w' = fs w /\ savefigs w' = savefigs w /\ surveys w' = surveys w.

(** The relations that steps are composed under: preorders that hold of
    every quiet step. *)
Class StepRel (T : world -> world -> Prop) : Prop := {
  step_refl : forall w, T w w;
  step_trans : forall w1 w2 w3, T w1 w2 -> T w2 w3 -> T w1 w3;
  step_quiet : forall w w', quiet w w' -> T w w'
}.

Definition keeps_surveys (w w' : world) : Prop := surveys w' = surveys w.

Definition figure_grows (P : string * figure -> Prop) (w w' : world) : Prop :=
  grows P w w' /\ surveys w' = surveys w.

(** A step that leaves the caller's list alone and under which the world
    grows by figures that satisfy [P]. *)
Definition figure_step {A} (P : string * figure -> Prop) (m : M A) : Prop :=
  preserves (figure_grows P) m.

(** A step under which the world grows, whatever it does to the list. *)
Definition growing {A} (P : string * figure -> Prop) (m : M A) : Prop :=
  preserves (grows P) m.

(** The two data products that [main] has read when the survey blocks start. *)
Definition products_read (source : Source) (src_basename : string) (w : world) : Prop :=
  (exists h, fs w !! product_path src_basename source "_snr.fits" = Some (Fits h))
  /\ (exists h, fs w !! product_path src_basename source "_mom0.fits" = Some (Fits h)).

(** [v] holds a product that [u] lacks only where the figure made from it
    is there too. *)
Definition no_new_product (source : Source) (src_basename suffix : string)
    (u v : world) : Prop :=
  (fs u !! product_path src_basename source "_mom1.fits" = None ->
   fs v !! figure_path src_basename source "_mom1" suffix = None ->
   fs v !! product_path src_basename source "_mom1.fits" = None)
  /\ (fs u !! product_path src_basename source "_pv.fits" = None ->
      fs v !! figure_path src_basename source "_pv" suffix = None ->
      fs v !! product_path src_basename source "_pv.fits" = None).

(** Every file that [v] holds and [u] lacks is a figure of the run. *)
Definition only_drawn_since (source : Source) (src_basename suffix : string) (C : value)
    (u v : world) : Prop :=
  forall p c, fs u !! p = None -> fs v !! p = Some c ->
              exists f, c = Figure f /\ drawn source src_basename suffix C (p, f).

(** [v] is a world in which the step that led from [u] is run again. *)
Definition rerun_from (source : Source) (src_basename suffix : string) (C : value)
    (u v : world) : Prop :=
  surveys v = surveys u
  /\ products_read source src_basename u
  /\ no_new_product source src_basename suffix u v
  /\ only_drawn_since source src_basename suffix C u v.

(** A step that returned, run again in a world that has all the files the
    first run left, returns the same and writes nothing. *)
Definition reruns {A} (source : Source) (src_basename suffix : string) (C : value)
    (m : M A) : Prop :=
  forall u a u' v,
    m u = (Ok a, u') -> rerun_from source src_basename suffix C u v -> fs u' ⊆ fs v ->
    exists v', m v = (Ok a, v') /\ fs v' = fs v /\ savefigs v' = savefigs v
               /\ surveys v' = surveys u'.

(** A step that grows the world and can be run again. *)
Definition behaved {A} (source : Source) (src_basename suffix : string)
    (C : value) (m : M A) : Prop :=
  growing (drawn source src_basename suffix C) m
  /\ reruns source src_basename suffix C m.

(** Each of the six figure steps is skipped when its figure is there. *)
Definition figure_steps_skip (source : Source) (src_basename suffix : string) : Prop :=
  (forall cube_params p opt C survey,
      skipped_when_there
        (figure_path src_basename source
           ("_mom0" +:+ str_lower (str_replace " " "" survey)) suffix)
        (make_overlay source src_basename cube_params p opt C suffix survey))
  /\ (forall cube_params p head C,
        skipped_when_there (figure_path src_basename source "_mom0hi" suffix)
          (make_mom0 source src_basename cube_params p head C suffix))
  /\ (forall cube_params p head C,
        skipped_when_there (figure_path src_basename source "_snr" suffix)
          (make_snr source src_basename cube_params p head C suffix))
  /\ (forall cube_params p head C view sofia,
        skipped_when_there (figure_path src_basename source "_mom1" suffix)
          (make_mom1 source src_basename cube_params p head C view suffix sofia))
  /\ (forall cube_params p im head C survey,
        skipped_when_there (figure_path src_basename source ("_mom0" +:+ survey) suffix)
          (make_color_im source src_basename cube_params p im head C suffix survey))
  /\ (forall cube_params,
        skipped_when_there (figure_path src_basename source "_pv" suffix)
          (make_pv source src_basename cube_params suffix)).

(** A step that neither reads nor writes files: in any world with the same
    list it ends the same way. *)
Definition fs_blind {A} (m : M A) : Prop :=
  forall u r u' v,
    m u = (r, u') -> surveys v = surveys u ->
    fs u' = fs u /\ savefigs u' = savefigs u
    /\ exists v', m v = (r, v') /\ fs v' = fs v /\ savefigs v' = savefigs v
                  /\ surveys v' = surveys u'.

(** The figures of a run of [main], with the base contour they belong to. *)
Definition drawn_in_run (source : Source) (src_basename suffix : string)
    (range : value * value) (w : world) (pf : string * figure) : Prop :=
  exists hs hm C,
    fs w !! product_path src_basename source "_snr.fits" = Some (Fits hs)
    /\ fs w !! product_path src_basename source "_mom0.fits" = Some (Fits hm)
    /\ HIlowest_of (data hm) (data hs) range = Ok C
    /\ drawn source src_basename suffix C pf.

End Relations.

(** ** Further vocabulary: handles and quiet steps *)

(** A step that returns normally and leaves the files, the figures drawn,
    the caller's list and the open handles as they were. *)
Definition returns_quietly (m : M unit) (w : world) : Prop :=
  (m w).1 = Ok tt /\ quiet w (m w).2 /\ handles (m w).2 = handles w.

(** A step that closes the product at [path] when it returns, and leaves it
    open when an exception ends it after the product was opened; opening a
    file that is no FITS file ends in [OSError] with nothing opened. *)
Definition closes_on_return (path : string) (m : M unit) : Prop :=
  forall w,
    match (m w).1 with
    | Ok _ => handles (m w).2 = handles w
    | Raise e => handles (m w).2 = if bool_decide (e = OSError) then handles w
                                    else path :: handles w
    end.

(** A run that ended in neither of the two exceptions. *)
Definition not_swallowed {A} (r : result A) : Prop :=
  r <> Raise ValueError /\ r <> Raise HTTPError.

(** What [make_pv] leaves behind: the caller's list as it was and at most
    one figure, the position-velocity diagram at [path]. *)
Definition pv_only (path : string) (w w' : world) : Prop :=
  surveys w' = surveys w
  /\ (savefigs w' = savefigs w
      \/ exists f, fig_kind f = FigPV /\ savefigs w' = savefigs w ++ [(path, f)]).

(** ** Fixtures: one source, its products and concrete capabilities *)

Module Fixture.

Definition source1 : Source :=
  mkSource 1 "J1000+02" 150 2 10 10 5 15 6 14 3 9 30 (VCol (Num 1500000)).

Definition cube1 : CubeParams :=
  mkCubeParams (mkQuantity 20 arcsec) (mkQuantity 15 arcsec) 0 (mkQuantity 2 arcsec)
               "VRAD" "barycent" None "icrs".

(** All fixture images lie on one grid; a card tells them apart. *)
Definition head (n : string) : Header :=
  [("CTYPE1", "RA---TAN"); ("CTYPE2", "DEC--TAN"); ("ORIGIN", n)].

Definition snr_data : image :=
  [[Num 1; Num 2; Num (5 # 2)]; [Num (14 # 5); Num 3; Num 4]].
Definition mom0_data : image :=
  [[Num 10; Num 20; Num 30]; [Num 50; Num 70; Num 90]].
Definition mom1_data : image :=
  [[Num 1400000; Num 1450000; Num 1500000]; [Num 1550000; Num 1600000; Num 1650000]].
Definition pv_data : image := [[Num 0; Num 2]; [Num 0; Num 2]].

Definition base : string := "run/J_cubelets/J".

Definition fs1 : gmap string content :=
  <["run/J_cubelets/J_1_snr.fits" := Fits (mkHdu (head "snr") snr_data)]>
  (<["run/J_cubelets/J_1_mom0.fits" := Fits (mkHdu (head "mom0") mom0_data)]>
  (<["run/J_cubelets/J_1_mom1.fits" := Fits (mkHdu (head "mom1") mom1_data)]>
  (<["run/J_cubelets/J_1_pv.fits" := Fits (mkHdu (head "pv") pv_data)]> ∅))).

Definition world1 (l : list string) : world := mkWorld fs1 l [] [] [].

(** The PV product is there but the significance map is not. *)
Definition fs_no_snr : gmap string content :=
  <["run/J_cubelets/J_1_mom0.fits" := Fits (mkHdu (head "mom0") mom0_data)]>
  (<["run/J_cubelets/J_1_pv.fits" := Fits (mkHdu (head "pv") pv_data)]> ∅).

Definition sky_image (n : string) : hdu := mkHdu (head n) [[Num 1; Num 2]; [Num 3; Num 4]].

Definition finite (l : list value) : list Q :=
  flat_map (fun v => match v with Num q => [q] | NaN => [] end) l.

Definition Qsum (l : list Q) : Q := foldr Qplus 0%Q l.

(** The standard deviation that ignores [NaN]; the square root is exact on
    the squares of rationals, which is all the fixtures need. *)
Definition nanstd (d : image) : value :=
  match finite (concat d) with
  | [] => NaN
  | q :: qs =>
      let n := inject_Z (Z.of_nat (length (q :: qs))) in
      let mean := (Qsum (q :: qs) / n)%Q in
      let var := Qred (Qsum (map (fun v => (v - mean) * (v - mean))%Q (q :: qs)) / n)%Q in
      Num (Z.sqrt (Qnum var) # Pos.sqrt (Qden var))
  end.

(** Capabilities for a run: what each service answers. The reprojection is
    the one between coinciding grids: the values are kept and the footprint
    is 1 where the value is valid and 0 where it is not. *)
Definition caps (hst : option hdu) (pstar : list string) (url_head : string -> result Header)
    (sky : string -> result (list hdu)) : Capabilities :=
  {| get_info := fun _ _ => Ok cube1;
     chan2freq := fun _ _ => Ok (Num 1400000000);
     chan2vel := fun z _ => Ok (Num (z * 50000 + 1200000));
     get_hst_cosmos := fun _ _ => hst;
     SkyView_get_images := fun _ _ _ survey _ => sky survey;
     geturl := fun _ _ _ => pstar;
     getcolorim := fun _ _ _ => [[(1, 2, 3)%N]];
     fits_getheader := url_head;
     requests_get_image := fun _ => Ok [[(4, 5, 6)%N]];
     format_float := fun q => pretty (Qnum q) +:+ "/" +:+ pretty (Zpos (Qden q));
     transform_to_icrs := fun p => p;
     hz_to_kms := fun v => match v with
                           | Num f => if Qeq_bool f 0 then NaN
                                      else Num ((299792458 # 1000) * ((142040575177 # 100) / f - 1))
                           | NaN => NaN
                           end;
     reproject_interp :=
       fun h _ => (data h, map (map (fun v => if is_nan v then Num 0 else Num 1)) (data h));
     np_nanstd := nanstd |}.

(** SkyView answers every survey with one image. *)
Definition sky_all (survey : string) : result (list hdu) := Ok [sky_image survey].

(** As [sky_all], but "HST" is no survey that SkyView knows. *)
Definition sky_no_hst (survey : string) : result (list hdu) :=
  if String.eqb survey "HST" then Raise ValueError else Ok [sky_image survey].

(** SkyView has no image of "DSS2 Blue" at this position. *)
Definition sky_empty_dss2 (survey : string) : result (list hdu) :=
  if String.eqb survey "DSS2 Blue" then Ok [] else Ok [sky_image survey].

(** The query for "DSS2 Blue" ends in an HTTP error. *)
Definition sky_http_dss2 (survey : string) : result (list hdu) :=
  if String.eqb survey "DSS2 Blue" then Raise HTTPError else Ok [sky_image survey].

Definition no_header (url : string) : result Header := Raise HTTPError.
Definition a_header (url : string) : result Header := Ok (head url).

(** SkyView has every survey; no HST, PanSTARRS or DECaLS image. *)
Definition net_sky : Capabilities := caps None [] no_header sky_all.

(** As [net_sky], but SkyView has no image of "DSS2 Blue". *)
Definition net_dss2_empty : Capabilities := caps None [] no_header sky_empty_dss2.

(** As [net_sky], but the query for "DSS2 Blue" ends in an HTTP error. *)
Definition net_dss2_http : Capabilities := caps None [] no_header sky_http_dss2.

(** As [net_sky], with an HST image. *)
Definition net_hst : Capabilities := caps (Some (sky_image "hst")) [] no_header sky_all.

(** As [net_hst], with "HST" unknown to SkyView. *)
Definition net_hst_only : Capabilities := caps (Some (sky_image "hst")) [] no_header sky_no_hst.

(** Every service answers with an image. *)
Definition net_all : Capabilities :=
  caps (Some (sky_image "hst")) ["ps1/r.fits"] a_header sky_all.

Definition run (c : Capabilities) (w : world) : result (option bool) * world :=
  @main c source1 base default_opt_view "png" 2 None default_snr_range w.

End Fixture.

(** * The steps of the pipeline, one by one *)

Arguments contour_ladder : simpl never.
Arguments contour_check : simpl never.
Arguments figure_path : simpl never.
Arguments product_path : simpl never.
Arguments mom1_levels : simpl never.
Arguments pv_levels : simpl never.
Arguments mask_below : simpl never.
Arguments mom1_to_kms : simpl never.

Section Growth.
Context `{Capabilities}.

Lemma bind_inv {A B} (m : M A) (f : A -> M B) w r w' :
  bind m f w = (r, w') ->
  (exists a w1, m w = (Ok a, w1) /\ f a w1 = (r, w'))
  \/ (exists e, m w = (Raise e, w') /\ r = Raise e).
Proof.
  unfold bind. destruct (m w) as [[a|e] w1]; intros Hm.
  - left. eauto.
  - right. injection Hm as <- <-. eauto.
Qed.

Lemma try_catch_inv {A} (m : M A) (h : exn -> option (M A)) w r w' :
  try_catch m h w = (r, w') ->
  (exists a, m w = (Ok a, w') /\ r = Ok a)
  \/ (exists e w1 k, m w = (Raise e, w1) /\ h e = Some k /\ k w1 = (r, w'))
  \/ (exists e, m w = (Raise e, w') /\ h e = None /\ r = Raise e).
Proof.
  unfold try_catch. destruct (m w) as [[a|e] w1]; intros Hm.
  - left. injection Hm as <- <-. eauto.
  - right. destruct (h e) as [k|] eqn:Hh.
    + left. eauto 10.
    + right. injection Hm as <- <-. eauto.
Qed.

Lemma grows_refl P w : grows P w w.
Proof.
  split; [done|]. exists []. rewrite app_nil_r. repeat split; try constructor.
  intros p c Hn Hs. congruence.
Qed.

Lemma grows_trans P w1 w2 w3 : grows P w1 w2 -> grows P w2 w3 -> grows P w1 w3.
Proof.
  intros [Hs1 (n1 & E1 & F1 & N1 & K1)] [Hs2 (n2 & E2 & F2 & N2 & K2)].
  split; [by etrans|]. exists (n1 ++ n2). split; [|split; [|split]].
  - by rewrite E2, E1, app_assoc.
  - by apply Forall_app.
  - apply Forall_app. split; [done|].
    eapply Forall_impl; [exact N2|]. intros [p f] Hp; simpl in *.
    destruct (fs w1 !! p) as [c|] eqn:Hc; [|done].
    eapply lookup_weaken in Hc; [|exact Hs1]. congruence.
  - intros p c Hn Hc. destruct (fs w2 !! p) as [c2|] eqn:H2.
    + assert (c2 = c) as ->.
      { eapply lookup_weaken in H2; [|exact Hs2]. congruence. }
      destruct (K1 p c Hn H2) as (f & -> & Hin). exists f. split; [done|].
      apply elem_of_app. by left.
    + destruct (K2 p c H2 Hc) as (f & -> & Hin). exists f. split; [done|].
      apply elem_of_app. by right.
Qed.

Lemma grows_weaken (P Q : string * figure -> Prop) w w' :
  (forall pf, P pf -> Q pf) -> grows P w w' -> grows Q w w'.
Proof.
  intros HPQ [Hs (n & E & F & N & K)]. split; [done|]. exists n.
  repeat split; try done. eapply Forall_impl; [exact F|done].
Qed.

Lemma grows_same P w w' : fs w' = fs w -> savefigs w' = savefigs w -> grows P w w'.
Proof.
  intros Hf Hs. split; [by rewrite Hf|]. exists []. rewrite app_nil_r.
  repeat split; try done; try constructor. intros p c Hn Hc. congruence.
Qed.

Lemma grows_savefig P w out f hs so :
  fs w !! out = None -> P (out, f) ->
  grows P w (mkWorld (<[out := Figure f]> (fs w)) (surveys w) hs so (savefigs w ++ [(out, f)])).
Proof.
  intros Hn HP. split; simpl.
  - by apply insert_subseteq.
  - exists [(out, f)]. repeat split; try done.
    + by constructor.
    + by constructor.
    + intros p c Hp Hc. destruct (decide (out = p)) as [->|Hne].
      * rewrite lookup_insert_eq in Hc. injection Hc as <-. exists f. split; [done|].
        apply list_elem_of_singleton. done.
      * rewrite lookup_insert_ne in Hc by done. congruence.
Qed.


Global Instance grows_StepRel P : StepRel (grows P).
Proof.
  split.
  - apply grows_refl.
  - apply grows_trans.
  - intros w w' (Hf & Hs & _). by apply grows_same.
Qed.

Global Instance figure_grows_StepRel P : StepRel (figure_grows P).
Proof.
  split.
  - intros w. split; [apply grows_refl|done].
  - intros w1 w2 w3 [G1 S1] [G2 S2]. split; [by eapply grows_trans|congruence].
  - intros w w' (Hf & Hs & Hl). split; [by apply grows_same|done].
Qed.

Global Instance keeps_surveys_StepRel : StepRel keeps_surveys.
Proof.
  split; unfold keeps_surveys.
  - done.
  - congruence.
  - by intros w w' (_ & _ & Hl).
Qed.

Global Instance quiet_StepRel : StepRel quiet.
Proof.
  split; unfold quiet.
  - done.
  - intros w1 w2 w3 (? & ? & ?) (? & ? & ?). repeat split; congruence.
  - done.
Qed.

Section Preserves.
Context (T : world -> world -> Prop) `{!StepRel T}.

Lemma preserves_ret {A} (a : A) : preserves T (ret a).
Proof. intros w r w' [= <- <-]. apply step_refl. Qed.

Lemma preserves_raise {A} e : preserves T (@raise A e).
Proof. intros w r w' [= <- <-]. apply step_refl. Qed.

Lemma preserves_lift {A} (x : result A) : preserves T (lift x).
Proof. intros w r w' [= <- <-]. apply step_refl. Qed.

Lemma preserves_print m : preserves T (print m).
Proof. intros w r w' [= <- <-]. by apply step_quiet. Qed.

Lemma preserves_get_surveys : preserves T get_surveys.
Proof. intros w r w' [= <- <-]. apply step_refl. Qed.

Lemma preserves_surveys_head : preserves T surveys_head.
Proof.
  intros w r w' Hrun. unfold surveys_head in Hrun.
  destruct (surveys w); injection Hrun as <- <-; apply step_refl.
Qed.

Lemma preserves_isfile p : preserves T (isfile p).
Proof. intros w r w' [= <- <-]. apply step_refl. Qed.

Lemma preserves_fits_open p : preserves T (fits_open p).
Proof.
  intros w r w' Hrun. unfold fits_open in Hrun.
  destruct (fs w !! p) as [[?|?]|]; injection Hrun as <- <-;
    first [apply step_refl | by apply step_quiet].
Qed.

Lemma preserves_fits_close p : preserves T (fits_close p).
Proof. intros w r w' [= <- <-]. by apply step_quiet. Qed.

Lemma preserves_bind {A B} (m : M A) (f : A -> M B) :
  preserves T m -> (forall a, preserves T (f a)) -> preserves T (bind m f).
Proof.
  intros Hm Hf w r w' Hrun. apply bind_inv in Hrun as [(a & w1 & H1 & H2)|(e & H1 & ->)].
  - eapply step_trans; [by eapply Hm|by eapply Hf].
  - by eapply Hm.
Qed.

Lemma preserves_try_catch {A} (m : M A) (h : exn -> option (M A)) :
  preserves T m -> (forall e k, h e = Some k -> preserves T k) ->
  preserves T (try_catch m h).
Proof.
  intros Hm Hh w r w' Hrun.
  apply try_catch_inv in Hrun as [(a & H1 & ->)|[(e & u1 & k & H1 & Hk & H2)|(e & H1 & Hk & ->)]].
  - by eapply Hm.
  - eapply step_trans; [by eapply Hm|by eapply Hh].
  - by eapply Hm.
Qed.

Lemma preserves_finally {A} (m : M A) (fin : M unit) :
  preserves T m -> preserves T fin -> preserves T (finally m fin).
Proof.
  intros Hm Hf w r w' Hrun. unfold finally in Hrun.
  destruct (m w) as [r1 w1] eqn:H1. destruct (fin w1) as [[[]|e] w2] eqn:H2;
    injection Hrun as <- <-; (eapply step_trans; [by eapply Hm|by eapply Hf]).
Qed.

End Preserves.

Lemma preserves_impl {A} (T T' : world -> world -> Prop) (m : M A) :
  (forall w w', T w w' -> T' w w') -> preserves T m -> preserves T' m.
Proof. intros HT Hm w r w' Hrun. apply HT. by eapply Hm. Qed.

Lemma figure_step_growing {A} P (m : M A) : figure_step P m -> growing P m.
Proof. apply preserves_impl. by intros w w' [? ?]. Qed.

Lemma figure_step_keeps {A} P (m : M A) : figure_step P m -> preserves keeps_surveys m.
Proof. apply preserves_impl. by intros w w' [? ?]. Qed.

Lemma blind_quiet_fs {A} (m : M A) w r w' :
  fs_blind m -> m w = (r, w') -> fs w' = fs w /\ savefigs w' = savefigs w.
Proof. intros Hb Hrun. destruct (Hb _ _ _ w Hrun eq_refl) as (? & ? & _). done. Qed.

End Growth.

(** The handlers of an [except] clause, case by case. *)
Ltac head_of t :=
  lazymatch t with
  | ?f _ => head_of f
  | _ => t
  end.

Ltac handler_cases :=
  match goal with
  | Hh : (if bool_decide (?e = _) then Some _ else None) = Some _ |- _ =>
      case_bool_decide; [injection Hh as <-|discriminate Hh]
  | Hh : match ?e with _ => _ end = Some _ |- _ =>
      destruct e; try discriminate Hh; injection Hh as <-
  end.

Ltac step_rel := try match goal with |- StepRel _ => typeclasses eauto end.

Ltac pres_step :=
  first
    [ progress cbv zeta
    | apply preserves_ret; step_rel | apply preserves_raise; step_rel
    | apply preserves_lift; step_rel | apply preserves_print; step_rel
    | apply preserves_get_surveys; step_rel | apply preserves_surveys_head; step_rel
    | apply preserves_isfile; step_rel | apply preserves_fits_open; step_rel
    | apply preserves_fits_close; step_rel
    | apply preserves_bind; step_rel; [|intros ?]
    | apply preserves_try_catch; step_rel; [|intros ? ? ?]
    | apply preserves_finally; step_rel
    | handler_cases
    | match goal with
      | |- preserves _ (match ?x with _ => _ end) => destruct x
      end ].

Ltac pres := repeat pres_step.

Ltac unfold_prims :=
  unfold open_or_return, try_except, try_catch, with_fits, finally, bind, isfile, print,
    fits_open, savefig, fits_close, ret, raise, lift, get_surveys, surveys_head,
    surveys_remove in *.

Ltac exec_step H :=
  match type of H with
  | context [match fs ?w !! ?p with _ => _ end] =>
      let E := fresh "Hfs" in destruct (fs w !! p) as [[?|?]|] eqn:E; simpl in H
  | context [match ?x with _ => _ end] => is_var x; destruct x; simpl in H
  | context [match reproject_interp ?h ?o with _ => _ end] =>
      destruct (reproject_interp h o); simpl in H
  | context [match mask_below ?a ?b ?c with _ => _ end] =>
      let E := fresh "Hmask" in destruct (mask_below a b c) eqn:E; simpl in H
  | context [contour_check ?z ?l] =>
      let E := fresh "Hcheck" in destruct (contour_check z l) as [[]|?] eqn:E; simpl in H
  end.

Ltac exec H :=
  unfold_prims; simpl in H; repeat exec_step H;
  try discriminate H; try (injection H as <- <-).

Lemma times_vmul (a b : value) : times a b = vmul a b.
Proof. by destruct a, b. Qed.

(** What [ax.contour] accepts and what it refuses. *)
Lemma contour_check_ok z levels :
  contour_check z levels = Ok tt -> at_least_2x2 z = true /\ not_increasing levels = false.
Proof.
  unfold contour_check. destruct (at_least_2x2 z); [|discriminate].
  destruct (not_increasing levels); [discriminate|done].
Qed.

Lemma contour_check_raises z levels e :
  contour_check z levels = Raise e ->
  (e = TypeError /\ at_least_2x2 z = false)
  \/ (e = ValueError /\ at_least_2x2 z = true /\ not_increasing levels = true).
Proof.
  unfold contour_check. destruct (at_least_2x2 z); simpl; [|intros [= <-]; by left].
  destruct (not_increasing levels); [intros [= <-]; by right|discriminate].
Qed.

Section FigureSteps.
Context `{Capabilities}.

Lemma make_overlay_step source src_basename cube_params patch opt C suffix survey :
  figure_step
    (fun pf => exists o, opt = Some o /\ not_increasing (contour_ladder C) = false /\
       pf = (figure_path src_basename source
               ("_mom0" +:+ str_lower (str_replace " " "" survey)) suffix,
             mkFigure (FigOverlay survey) (header o) (Gray (data o)) (Some patch)
                      (contour_ladder C)))
    (make_overlay source src_basename cube_params patch opt C suffix survey).
Proof.
  intros w r w' Hrun. unfold make_overlay in Hrun. exec Hrun.
  all: split; [|reflexivity].
  all: try (apply grows_same; reflexivity).
  apply contour_check_ok in Hcheck as [_ Hinc]. apply grows_savefig; eauto.
Qed.

Lemma make_overlay_drawn source src_basename cube_params patch opt C suffix survey :
  figure_step (drawn source src_basename suffix C)
    (make_overlay source src_basename cube_params patch opt C suffix survey).
Proof.
  intros w r w' Hrun. apply make_overlay_step in Hrun as [Hg Hs]. split; [|done].
  eapply grows_weaken; [|exact Hg]. intros pf (o & -> & Hinc & ->). by constructor.
Qed.

Lemma make_mom0_drawn source src_basename cube_params patch opt_head C suffix :
  figure_step (drawn source src_basename suffix C)
    (make_mom0 source src_basename cube_params patch opt_head C suffix).
Proof.
  intros w r w' Hrun. unfold make_mom0 in Hrun. exec Hrun.
  all: split; [|reflexivity].
  all: try (apply grows_same; reflexivity).
  apply grows_savefig; [done|constructor]; try (by apply contour_check_ok in Hcheck as [_ ?]).
Qed.

Lemma make_snr_drawn source src_basename cube_params patch opt_head C suffix :
  figure_step (drawn source src_basename suffix C)
    (make_snr source src_basename cube_params patch opt_head C suffix).
Proof.
  intros w r w' Hrun. unfold make_snr in Hrun. exec Hrun.
  all: split; [|reflexivity].
  all: try (apply grows_same; reflexivity).
  apply grows_savefig; [done|constructor]; try (by apply contour_check_ok in Hcheck as [_ ?]).
Qed.

Lemma make_color_im_drawn source src_basename cube_params patch im head C suffix survey :
  figure_step (drawn source src_basename suffix C)
    (make_color_im source src_basename cube_params patch im head C suffix survey).
Proof.
  intros w r w' Hrun. unfold make_color_im in Hrun. exec Hrun.
  all: split; [|reflexivity].
  all: try (apply grows_same; reflexivity).
  apply grows_savefig; [done|constructor]; try (by apply contour_check_ok in Hcheck as [_ ?]).
Qed.

Lemma make_pv_drawn source src_basename cube_params C suffix :
  figure_step (drawn source src_basename suffix C)
    (make_pv source src_basename cube_params suffix).
Proof.
  intros w r w' Hrun. unfold make_pv in Hrun. exec Hrun.
  all: split; [|reflexivity].
  all: try (apply grows_same; reflexivity).
  apply grows_savefig; [done|constructor]; try (by apply contour_check_ok in Hcheck as [_ ?]).
Qed.

Lemma mom1_velocities_pure source src_basename sofia w r w' :
  mom1_velocities source src_basename sofia w = (r, w') -> w' = w.
Proof.
  unfold mom1_velocities. intros Hrun. unfold_prims.
  destruct (spectral source); simpl in Hrun.
  - destruct (sofia =? 2)%Z; [|destruct (sofia =? 1)%Z]; simpl in Hrun;
      repeat match type of Hrun with
             | context [match chan2freq ?a ?b with _ => _ end] =>
                 destruct (chan2freq a b); simpl in Hrun
             end; congruence.
  - repeat match type of Hrun with
           | context [match chan2vel ?a ?b with _ => _ end] =>
               destruct (chan2vel a b); simpl in Hrun
           end; congruence.
Qed.

Lemma mom1_velocities_vsys source src_basename sofia w v a b w' :
  mom1_velocities source src_basename sofia w = (Ok (v, a, b), w') ->
  v = systemic_velocity source.
Proof.
  unfold mom1_velocities, systemic_velocity. intros Hrun. unfold_prims.
  unfold ms_to_kms in Hrun.
  destruct (spectral source); simpl in Hrun; rewrite ?times_vmul.
  - destruct (sofia =? 2)%Z; [|destruct (sofia =? 1)%Z]; simpl in Hrun;
      repeat match type of Hrun with
             | context [match chan2freq ?a ?b with _ => _ end] =>
                 destruct (chan2freq a b); simpl in Hrun
             end; congruence.
  - repeat match type of Hrun with
           | context [match chan2vel ?a ?b with _ => _ end] =>
               destruct (chan2vel a b); simpl in Hrun
           end; congruence.
Qed.

Lemma make_mom1_drawn source src_basename cube_params patch opt_head C view suffix sofia :
  figure_step (drawn source src_basename suffix C)
    (make_mom1 source src_basename cube_params patch opt_head C view suffix sofia).
Proof.
  intros w r w' Hrun. unfold make_mom1 in Hrun. unfold_prims. simpl in Hrun.
  repeat exec_step Hrun.
  all: repeat match type of Hrun with
         | context [match mom1_velocities ?a ?b ?c ?w with _ => _ end] =>
             let E := fresh "Hvel" in
             destruct (mom1_velocities a b c w) as [[[[? ?] ?]|?] ?] eqn:E;
             [pose proof (mom1_velocities_vsys _ _ _ _ _ _ _ _ E)|];
             apply mom1_velocities_pure in E; subst; simpl in Hrun
         end.
  all: repeat exec_step Hrun.
  all: injection Hrun as <- <-.
  all: split; [|reflexivity].
  all: try (apply grows_same; reflexivity).
  apply grows_savefig; [done|constructor]; try (by apply contour_check_ok in Hcheck as [_ ?]).
Qed.

(** Steps that do not touch the files. *)

End FigureSteps.

Ltac blind_finish :=
  split; [reflexivity|]; split; [reflexivity|]; eexists; (split; [reflexivity|]);
  simpl; repeat split; congruence.

Section Blind.
Context `{Capabilities}.
Lemma fs_blind_ret {A} (a : A) : fs_blind (ret a).
Proof. intros u r u' v [= <- <-] Hs. blind_finish. Qed.

Lemma fs_blind_raise {A} e : fs_blind (@raise A e).
Proof. intros u r u' v [= <- <-] Hs. blind_finish. Qed.

Lemma fs_blind_lift {A} (x : result A) : fs_blind (lift x).
Proof. intros u r u' v [= <- <-] Hs. blind_finish. Qed.

Lemma fs_blind_print m : fs_blind (print m).
Proof. intros u r u' v [= <- <-] Hs. blind_finish. Qed.

Lemma fs_blind_get_surveys : fs_blind get_surveys.
Proof.
  intros u r u' v [= <- <-] Hs. unfold get_surveys. rewrite Hs. blind_finish.
Qed.

Lemma fs_blind_surveys_head : fs_blind surveys_head.
Proof.
  intros u r u' v Hrun Hs. unfold surveys_head in *. rewrite Hs.
  destruct (surveys u) eqn:E; injection Hrun as <- <-; blind_finish.
Qed.

Lemma fs_blind_surveys_remove x : fs_blind (surveys_remove x).
Proof.
  intros u r u' v Hrun Hs. unfold surveys_remove in *. rewrite Hs.
  destruct (py_remove x (surveys u)) eqn:E; injection Hrun as <- <-; blind_finish.
Qed.

Lemma fs_blind_bind {A B} (m : M A) (f : A -> M B) :
  fs_blind m -> (forall a, fs_blind (f a)) -> fs_blind (bind m f).
Proof.
  intros Hm Hf u r u' v Hrun Hs. apply bind_inv in Hrun as [(a & u1 & H1 & H2)|(e & H1 & ->)].
  - destruct (Hm _ _ _ _ H1 Hs) as (Ef & Es & v1 & Hv1 & Ef1 & Es1 & Esv1).
    destruct (Hf a _ _ _ v1 H2 Esv1) as (Ef' & Es' & v' & Hv' & Ef2 & Es2 & Esv2).
    split; [congruence|]. split; [congruence|]. exists v'. unfold bind. rewrite Hv1.
    repeat split; congruence.
  - destruct (Hm _ _ _ _ H1 Hs) as (Ef & Es & v1 & Hv1 & Ef1 & Es1 & Esv1).
    split; [done|]. split; [done|]. exists v1. unfold bind. rewrite Hv1. done.
Qed.

Lemma fs_blind_try_catch {A} (m : M A) (h : exn -> option (M A)) :
  fs_blind m -> (forall e k, h e = Some k -> fs_blind k) -> fs_blind (try_catch m h).
Proof.
  intros Hm Hh u r u' v Hrun Hs.
  apply try_catch_inv in Hrun as [(a & H1 & ->)|[(e & u1 & k & H1 & Hk & H2)|(e & H1 & Hk & ->)]].
  - destruct (Hm _ _ _ _ H1 Hs) as (Ef & Es & v1 & Hv1 & Ef1 & Es1 & Esv1).
    split; [done|]. split; [done|]. exists v1. unfold try_catch. rewrite Hv1. done.
  - destruct (Hm _ _ _ _ H1 Hs) as (Ef & Es & v1 & Hv1 & Ef1 & Es1 & Esv1).
    destruct (Hh e k Hk _ _ _ v1 H2 Esv1) as (Ef' & Es' & v' & Hv' & Ef2 & Es2 & Esv2).
    split; [congruence|]. split; [congruence|]. exists v'. unfold try_catch.
    rewrite Hv1, Hk. repeat split; congruence.
  - destruct (Hm _ _ _ _ H1 Hs) as (Ef & Es & v1 & Hv1 & Ef1 & Es1 & Esv1).
    split; [done|]. split; [done|]. exists v1. unfold try_catch. rewrite Hv1, Hk. done.
Qed.

End Blind.

Ltac blind :=
  repeat first
    [ apply fs_blind_ret | apply fs_blind_raise | apply fs_blind_lift
    | apply fs_blind_print | apply fs_blind_get_surveys | apply fs_blind_surveys_head
    | apply fs_blind_surveys_remove
    | apply fs_blind_bind; [|intros ?]
    | apply fs_blind_try_catch; [|intros ? ? ?]
    | match goal with
      | |- fs_blind (match ?x with _ => _ end) => destruct x
      | H : (if ?b then _ else _) = Some _ |- _ => destruct b; [|discriminate]
      | H : Some _ = Some _ |- _ => injection H as <-
      | H : None = Some _ |- _ => discriminate
      end ].

Section Fetching.
Context `{Capabilities}.
Lemma get_skyview_blind pos view survey : fs_blind (get_skyview pos view survey).
Proof. unfold get_skyview. blind. Qed.

Lemma get_panstarrs_blind pos view : fs_blind (get_panstarrs pos view).
Proof. unfold get_panstarrs. blind. Qed.

Lemma get_decals_blind pos view : fs_blind (get_decals pos view).
Proof. unfold get_decals, try_except. blind. Qed.


Lemma get_skyview_step T `{!StepRel T} pos view survey : preserves T (get_skyview pos view survey).
Proof. unfold get_skyview. pres. Qed.

Lemma get_panstarrs_step T `{!StepRel T} pos view : preserves T (get_panstarrs pos view).
Proof. unfold get_panstarrs. pres. Qed.

Lemma get_decals_step T `{!StepRel T} pos view : preserves T (get_decals pos view).
Proof. unfold get_decals, try_except. pres. Qed.

Lemma base_contour_step_step T `{!StepRel T} source src_basename range :
  preserves T (base_contour_step source src_basename range).
Proof. unfold base_contour_step, try_except, with_fits. pres. Qed.


Lemma growing_surveys_remove P x : growing P (surveys_remove x).
Proof.
  intros w r w' Hrun. unfold surveys_remove in Hrun.
  destruct (py_remove x (surveys w)); injection Hrun as <- <-; by apply grows_same.
Qed.

Section BlockSteps.
Variables (source : Source) (src_basename : string) (cube_params : CubeParams).
Variables (hi_pos_icrs : SkyCoord) (C : value) (suffix : string).

Let D := drawn source src_basename suffix C.

Ltac leaves :=
  lazymatch goal with
  | |- preserves _ ?m =>
      lazymatch head_of m with
      | @make_overlay =>
          first [ apply make_overlay_drawn | apply figure_step_growing, make_overlay_drawn ]
      | @make_mom0 =>
          first [ apply make_mom0_drawn | apply figure_step_growing, make_mom0_drawn ]
      | @make_snr =>
          first [ apply make_snr_drawn | apply figure_step_growing, make_snr_drawn ]
      | @make_mom1 =>
          first [ apply make_mom1_drawn | apply figure_step_growing, make_mom1_drawn ]
      | @make_color_im =>
          first [ apply make_color_im_drawn
                | apply figure_step_growing, make_color_im_drawn ]
      | @make_pv =>
          first [ apply make_pv_drawn | apply figure_step_growing, make_pv_drawn ]
      | @get_skyview => apply get_skyview_step; step_rel
      | @get_panstarrs => apply get_panstarrs_step; step_rel
      | @get_decals => apply get_decals_step; step_rel
      | @surveys_remove => apply growing_surveys_remove
      end
  end.

Ltac walk := repeat first [ leaves | pres_step ].

Lemma hst_block_growing l :
  growing D (hst_block source src_basename cube_params C suffix l).
Proof. unfold hst_block, growing, D. walk. Qed.

Lemma panstarrs_block_growing l :
  growing D (panstarrs_block source src_basename cube_params hi_pos_icrs C suffix l).
Proof. unfold panstarrs_block, growing, D. walk. Qed.

Lemma decals_block_growing l :
  growing D (decals_block source src_basename cube_params hi_pos_icrs C suffix l).
Proof. unfold decals_block, growing, D. walk. Qed.

Lemma skyview_iteration_step survey l :
  figure_step D
    (skyview_iteration source src_basename cube_params hi_pos_icrs C suffix survey l).
Proof. unfold skyview_iteration, figure_step, D. walk. Qed.

Lemma skyview_loop_step todo : forall l,
  figure_step D (skyview_loop source src_basename cube_params hi_pos_icrs C suffix todo l).
Proof.
  induction todo as [|survey rest IH]; intros l; simpl.
  - unfold figure_step. pres.
  - unfold figure_step. apply preserves_bind; step_rel; [apply skyview_iteration_step|].
    intros l'. apply IH.
Qed.

Lemma skyview_block_step l :
  figure_step D (skyview_block source src_basename cube_params hi_pos_icrs C suffix l).
Proof.
  unfold skyview_block, figure_step. apply preserves_bind; step_rel; [pres|].
  intros now. apply skyview_loop_step.
Qed.

Lemma survey_blocks_growing l :
  growing D (survey_blocks source src_basename cube_params hi_pos_icrs C suffix l).
Proof.
  unfold survey_blocks, growing.
  apply preserves_bind; step_rel; [apply hst_block_growing|intros ?].
  apply preserves_bind; step_rel; [apply panstarrs_block_growing|intros ?].
  apply preserves_bind; step_rel; [apply decals_block_growing|intros ?].
  apply figure_step_growing, skyview_block_step.
Qed.

Lemma grid_block_step l :
  figure_step D (grid_block source src_basename cube_params C suffix l).
Proof. unfold grid_block, figure_step, D. walk. Qed.

End BlockSteps.


Lemma drawn_set_position source pos src_basename suffix C pf :
  drawn (set_position source pos) src_basename suffix C pf ->
  drawn source src_basename suffix C pf.
Proof.
  intros Hd. destruct Hd;
    try change (systemic_velocity (set_position source pos)) with (systemic_velocity source);
    change (figure_path src_basename (set_position source pos))
      with (figure_path src_basename source); by constructor.
Qed.

Lemma drawn_at_position source pos src_basename suffix C pf :
  drawn source src_basename suffix C pf ->
  drawn (set_position source pos) src_basename suffix C pf.
Proof.
  intros Hd. destruct Hd;
    try change (systemic_velocity source) with (systemic_velocity (set_position source pos));
    change (figure_path src_basename source)
      with (figure_path src_basename (set_position source pos)); by constructor.
Qed.

Lemma main_images_growing source src_basename cube_params view suffix C :
  growing (drawn source src_basename suffix C)
    (main_images source src_basename cube_params view suffix C).
Proof.
  unfold main_images, growing.
  apply preserves_bind; step_rel; [pres|intros cp]. cbv zeta.
  apply preserves_bind; step_rel; [pres|intros _].
  apply preserves_bind; step_rel; [|intros l].
  - eapply preserves_impl; [|apply survey_blocks_growing].
    intros w w'. apply grows_weaken. intros pf. apply drawn_set_position.
  - apply preserves_bind; step_rel; [|intros _; pres].
    eapply preserves_impl; [|apply figure_step_growing, grid_block_step].
    intros w w'. apply grows_weaken. intros pf. apply drawn_set_position.
Qed.

Lemma main_images_source source src_basename cube_params view suffix C w s cp l w' :
  main_images source src_basename cube_params view suffix C w = (Ok (s, cp, l), w') ->
  exists pos, s = set_position source pos.
Proof.
  intros Hrun. unfold main_images in Hrun.
  apply bind_inv in Hrun as [(cp0 & w0 & _ & Hrun)|(e & _ & [=])]. cbv zeta in Hrun.
  apply bind_inv in Hrun as [([] & w1 & _ & Hrun)|(e & _ & [=])].
  apply bind_inv in Hrun as [(l0 & w2 & _ & Hrun)|(e & _ & [=])].
  apply bind_inv in Hrun as [([] & w3 & _ & Hrun)|(e & _ & [=])].
  injection Hrun as <- <- <- <-. eauto.
Qed.

Lemma base_contour_step_inv source src_basename range w C w' :
  base_contour_step source src_basename range w = (Ok (Some C), w') ->
  exists hs hm,
    fs w !! product_path src_basename source "_snr.fits" = Some (Fits hs)
    /\ fs w !! product_path src_basename source "_mom0.fits" = Some (Fits hm)
    /\ HIlowest_of (data hm) (data hs) range = Ok C.
Proof.
  intros Hrun. unfold base_contour_step in Hrun. unfold_prims. simpl in Hrun.
  repeat exec_step Hrun; try discriminate.
  all: match type of Hrun with
       | context [HIlowest_of ?a ?b ?c] => destruct (HIlowest_of a b c) eqn:HC
       end; simpl in Hrun; try discriminate.
  - injection Hrun as <- <-. eauto.
  - case_bool_decide; simpl in Hrun; discriminate.
Qed.

Lemma main_grows source src_basename view suffix sofia beam range w r w' :
  main source src_basename view suffix sofia beam range w = (r, w') ->
  grows (drawn_in_run source src_basename suffix range w) w w'.
Proof.
  intros Hrun. unfold main in Hrun.
  apply bind_inv in Hrun as [([] & w0 & H0 & Hrun)|(e & H0 & ->)];
    [|by eapply (preserves_print (grows _))].
  assert (Q0 : quiet w w0) by (by eapply (preserves_print quiet)).
  apply bind_inv in Hrun as [(cube_params & w1 & H1 & Hrun)|(e & H1 & ->)].
  2:{ apply step_quiet. eapply step_trans; [exact Q0|]. revert H1.
      generalize w0 (@Raise (option CubeParams) e) w'. change (preserves quiet
        (if (sofia =? 2)%Z
         then cp <- lift (get_info (product_path src_basename source "_cube.fits") beam) ;;
              ret (Some cp)
         else if (sofia =? 1)%Z
              then cp <- lift (get_info (product_path src_basename source ".fits") beam) ;;
                   ret (Some cp)
              else ret None)).
      destruct (sofia =? 2)%Z; [|destruct (sofia =? 1)%Z]; pres. }
  assert (Q1 : quiet w0 w1).
  { revert H1. generalize w0 (Ok cube_params) w1. change (preserves quiet
        (if (sofia =? 2)%Z
         then cp <- lift (get_info (product_path src_basename source "_cube.fits") beam) ;;
              ret (Some cp)
         else if (sofia =? 1)%Z
              then cp <- lift (get_info (product_path src_basename source ".fits") beam) ;;
                   ret (Some cp)
              else ret None)).
    destruct (sofia =? 2)%Z; [|destruct (sofia =? 1)%Z]; pres. }
  assert (Q : quiet w w1) by (eapply step_trans; eauto).
  apply bind_inv in Hrun as [(r1 & w2 & H2 & Hrun)|(e & H2 & ->)].
  2:{ apply step_quiet. eapply step_trans; [exact Q|].
      by eapply (base_contour_step_step quiet). }
  assert (Q2 : quiet w1 w2) by (by eapply (base_contour_step_step quiet)).
  destruct r1 as [HIlowest|].
  2:{ injection Hrun as <- <-. apply step_quiet. eapply step_trans; eauto. }
  apply base_contour_step_inv in H2 as (hs & hm & Hs & Hm & HC).
  pose proof Q as (Qf & _ & _). rewrite Qf in Hs, Hm.
  eapply grows_trans; [apply step_quiet; eapply step_trans; [exact Q|exact Q2]|].
  eapply grows_weaken.
  { intros pf Hd. exists hs, hm, HIlowest. repeat split; [exact Hs|exact Hm|exact HC|exact Hd]. }
  revert Hrun. generalize w2 r w'.
  change (growing (drawn source src_basename suffix HIlowest)
    (r' <- main_images source src_basename cube_params view suffix HIlowest ;;
     (let '(source', cp, _) := r' in
      make_pv source' src_basename cp suffix ;;
      print (MsgDone (id source') (name source')) ;; ret (Some true)))).
  intros u r0 u' Hrun.
  apply bind_inv in Hrun as [([[source' cp] l] & u1 & H3 & Hrun)|(e & H3 & ->)];
    [|by eapply main_images_growing].
  eapply grows_trans; [by eapply main_images_growing|].
  apply main_images_source in H3 as [pos ->].
  revert Hrun. generalize u1 r0 u'.
  change (growing (drawn source src_basename suffix HIlowest)
    (make_pv (set_position source pos) src_basename cp suffix ;;
     print (MsgDone (id (set_position source pos)) (name (set_position source pos))) ;;
     ret (Some true))).
  apply preserves_bind; step_rel; [|intros _; pres].
  eapply preserves_impl; [|apply figure_step_growing, make_pv_drawn].
  intros x x'. apply grows_weaken. intros pf. apply drawn_set_position.
Qed.

End Fetching.



(** * Properties *)

(** ** The base contour *)

Lemma Qltb_lt (a b : Q) : Qltb a b = true <-> (a < b)%Q.
Proof.
  unfold Qltb. rewrite negb_true_iff. split; intros Hab.
  - apply Qnot_le_lt. intros Hle. apply Qle_bool_iff in Hle. congruence.
  - destruct (Qle_bool b a) eqn:E; [|reflexivity].
    apply Qle_bool_iff in E. exfalso. apply (Qlt_not_le _ _ Hab E).
Qed.

Lemma vlt_Num (a b : Q) : vlt (Num a) (Num b) = true <-> (a < b)%Q.
Proof. apply Qltb_lt. Qed.

Lemma select_row_spec (lo hi : value) (g : nat -> value) (t : nat -> bool) :
  forall (r s : list value),
    length r = length s ->
    (forall j v, r !! j = Some v -> g j = v) ->
    (forall j v, s !! j = Some v -> t j = vlt lo v && vlt v hi) ->
    forall (c : nat -> nat * nat) (g' : nat * nat -> value) (t' : nat * nat -> bool),
      (forall j, g' (c j) = g j) -> (forall j, t' (c j) = t j) ->
      select_row r (zip_with andb (map (fun v => vgt v lo) s) (map (fun v => vlt v hi) s))
      = map g' (List.filter t' (imap (fun j _ => c j) s)).
Proof.
  intros r. revert g t. induction r as [|v r IH]; intros g t [|x s] Hlen Hg Ht c g' t' Hg' Ht';
    simpl in *; try discriminate; [reflexivity|].
  rewrite (Ht' 0%nat), (Ht 0%nat x eq_refl). unfold vgt at 1.
  assert (Hrec : select_row r (zip_with andb (map (fun v => vgt v lo) s)
                                            (map (fun v => vlt v hi) s))
                 = map g' (List.filter t' (imap (fun j _ => c (S j)) s))).
  { apply (IH (fun j => g (S j)) (fun j => t (S j)) s); [congruence | | | done | done].
    - intros j w Hj. by apply (Hg (S j)).
    - intros j w Hj. by apply (Ht (S j)). }
  rewrite Hrec.
  destruct (vlt lo x && vlt x hi); simpl; [|reflexivity].
  by rewrite Hg', (Hg 0%nat v eq_refl).
Qed.

Lemma select_rows_spec (lo hi : value) :
  forall (a b : image) (g : nat -> nat -> value) (t : nat -> nat -> bool),
    map length a = map length b ->
    (forall i r j v, a !! i = Some r -> r !! j = Some v -> g i j = v) ->
    (forall i r j v, b !! i = Some r -> r !! j = Some v -> t i j = vlt lo v && vlt v hi) ->
    forall (c : nat -> nat -> nat * nat) (g' : nat * nat -> value) (t' : nat * nat -> bool),
      (forall i j, g' (c i j) = g i j) -> (forall i j, t' (c i j) = t i j) ->
      select_rows a (mask_mul (arr_gt b lo) (arr_lt b hi))
      = map g' (List.filter t' (concat (imap (fun i row => imap (fun j _ => c i j) row) b))).
Proof.
  induction a as [|r a IH]; intros [|s b] g t Hlen Hg Ht c g' t' Hg' Ht'; simpl in *;
    try discriminate; [reflexivity|].
  injection Hlen as Hr Hlen.
  rewrite List.filter_app, map_app. f_equal.
  - apply (select_row_spec lo hi (g 0%nat) (t 0%nat)); [exact Hr | | | done | done].
    + intros j v Hj. by apply (Hg 0%nat r).
    + intros j v Hj. by apply (Ht 0%nat s).
  - apply (IH b (fun i => g (S i)) (fun i => t (S i)) Hlen); [ | | done | done].
    + intros i r' j v Hi Hj. by apply (Hg (S i) r').
    + intros i r' j v Hi Hj. by apply (Ht (S i) r').
Qed.

Lemma in_band_coords (snr : image) (band : value * value) (i j : nat) :
  (i, j) ∈ band_coords snr band <->
  exists s, pixel snr i j = Some s /\ vlt (fst band) s = true /\ vlt s (snd band) = true.
Proof.
  unfold band_coords. rewrite list_elem_of_In, List.filter_In, <- list_elem_of_In.
  unfold in_band; simpl. split.
  - intros [_ Hb]. destruct (pixel snr i j) as [s|]; [|discriminate].
    apply andb_true_iff in Hb. eauto.
  - intros (s & Hs & H1 & H2). split.
    + unfold coords, pixel in *. destruct (snr !! i) as [row|] eqn:Hi; [|discriminate].
      apply list_elem_of_In, in_concat. exists (imap (fun j _ => (i, j)) row).
      rewrite <- !list_elem_of_In. split.
      * apply (elem_of_lookup_imap_2 (fun i row => imap (fun j _ => (i, j)) row) _ _ _ Hi).
      * apply (elem_of_lookup_imap_2 (fun j _ => (i, j)) _ _ _ Hs).
    + rewrite Hs, H1, H2. reflexivity.
Qed.

(** C2. For intensity and significance maps of one shape and a band
    [(lo, hi)], the base contour that [main] computes is the median of the
    intensity values at exactly the pixel coordinates whose significance is
    strictly between [lo] and [hi]; pixels on the boundary are left out; the
    default band is (2, 3). *)
Theorem base_contour_is_band_median (intensity_map significance_map : image) (lo hi : Q) :
  same_shape intensity_map significance_map = true ->
  HIlowest_of intensity_map significance_map (Num lo, Num hi)
  = Ok (compute_base_contour intensity_map significance_map (Num lo, Num hi))
  /\ (forall i j, (i, j) ∈ band_coords significance_map (Num lo, Num hi) <->
                  exists s, pixel significance_map i j = Some (Num s) /\ (lo < s)%Q /\ (s < hi)%Q)
  /\ default_snr_range = (Num 2, Num 3).
Proof.
  intros Hshape. apply bool_decide_eq_true in Hshape. unfold shape in Hshape.
  split; [|split; [|reflexivity]].
  - unfold HIlowest_of, bool_index, compute_base_contour, band_coords, coords; simpl.
    assert (Hm : map length intensity_map
                 = map length (mask_mul (arr_gt significance_map (Num lo))
                                        (arr_lt significance_map (Num hi)))).
    { rewrite Hshape. clear. unfold mask_mul, arr_gt, arr_lt.
      induction significance_map as [|r a IH]; simpl; [reflexivity|].
      rewrite IH. f_equal. rewrite length_zip_with, !length_map. lia. }
    rewrite bool_decide_eq_true_2 by exact Hm. do 2 f_equal.
    apply (select_rows_spec (Num lo) (Num hi) intensity_map significance_map
             (fun i j => default NaN (pixel intensity_map i j))
             (fun i j => in_band significance_map (Num lo, Num hi) (i, j)));
      [exact Hshape | | | done | done].
    + intros i r j v Hi Hj. unfold pixel. by rewrite Hi, Hj.
    + intros i r j v Hi Hj. unfold in_band, pixel; simpl. by rewrite Hi, Hj.
  - intros i j. rewrite in_band_coords; simpl. split.
    + intros (s & Hs & H1 & H2). destruct s as [|s]; [simpl in H1; discriminate|].
      exists s. split; [done|]. split; by apply vlt_Num.
    + intros (s & Hs & H1 & H2). exists (Num s). split; [done|]. split; by apply vlt_Num.
Qed.

Lemma base_contour_is_band_median_witness :
  HIlowest_of Fixture.mom0_data Fixture.snr_data (Num 2, Num 3)
  = Ok (compute_base_contour Fixture.mom0_data Fixture.snr_data (Num 2, Num 3))
  /\ (forall i j, (i, j) ∈ band_coords Fixture.snr_data (Num 2, Num 3) <->
                  exists s, pixel Fixture.snr_data i j = Some (Num s)
                            /\ (2 < s)%Q /\ (s < 3)%Q)
  /\ default_snr_range = (Num 2, Num 3).
Proof.
  apply (base_contour_is_band_median Fixture.mom0_data Fixture.snr_data 2 3).
  reflexivity.
Defined.

(** ** The field of view *)

Lemma qmax_spec (a b : Q) :
  ((a <= b)%Q /\ qmax a b = b) \/ ((b < a)%Q /\ qmax a b = a).
Proof.
  unfold qmax. destruct (Qle_bool a b) eqn:E.
  - left. split; [by apply Qle_bool_iff|reflexivity].
  - right. split; [|reflexivity]. apply Qnot_le_lt. intros Hle.
    apply Qle_bool_iff in Hle. congruence.
Qed.

Lemma Qltb_spec (a b : Q) :
  ((a < b)%Q /\ Qltb a b = true) \/ ((b <= a)%Q /\ Qltb a b = false).
Proof.
  destruct (Qltb a b) eqn:E.
  - left. split; [by apply Qltb_lt|reflexivity].
  - right. split; [|reflexivity]. apply Qnot_lt_le. intros Hlt.
    apply Qltb_lt in Hlt. congruence.
Qed.


(** ** Running through a sequence of steps *)

Lemma bind_ok_inv {A B} (m : M A) (f : A -> M B) w b w' :
  bind m f w = (Ok b, w') -> exists a w1, m w = (Ok a, w1) /\ f a w1 = (Ok b, w').
Proof.
  intros Hrun. apply bind_inv in Hrun as [(a & w1 & H1 & H2)|(e & _ & [=])]. eauto.
Qed.

Lemma bind_ok_intro {A B} (m : M A) (f : A -> M B) w a w1 res :
  m w = (Ok a, w1) -> f a w1 = res -> bind m f w = res.
Proof. intros Hm Hf. unfold bind. by rewrite Hm. Qed.

Lemma preserves_bind_with {A B} (T : world -> world -> Prop) `{!StepRel T}
    (Phi : A -> Prop) (m : M A) (f : A -> M B) :
  (forall w a w', m w = (Ok a, w') -> Phi a) ->
  preserves T m -> (forall a, Phi a -> preserves T (f a)) -> preserves T (bind m f).
Proof.
  intros HPhi Hm Hf w r w' Hrun.
  apply bind_inv in Hrun as [(a & w1 & H1 & H2)|(e & H1 & ->)].
  - eapply step_trans; [by eapply Hm|]. eapply Hf; [by eapply HPhi|done].
  - by eapply Hm.
Qed.

Lemma py_in_true x l : py_in x l = true <-> x ∈ l.
Proof. unfold py_in. apply bool_decide_eq_true. Qed.

Lemma py_in_false x l : py_in x l = false <-> x ∉ l.
Proof. unfold py_in. apply bool_decide_eq_false. Qed.

(** A world that grew by no figure holds the files it held. *)
Lemma grows_nothing P w w' : grows P w w' -> savefigs w' = savefigs w -> fs w' = fs w.
Proof.
  intros (Hsub & new & Hnew & _ & _ & Hkeys) Hs.
  assert (new = []) as ->.
  { rewrite Hs in Hnew. apply (f_equal length) in Hnew. rewrite length_app in Hnew.
    destruct new; [done|simpl in Hnew; lia]. }
  apply map_eq. intros p. destruct (fs w !! p) as [c|] eqn:E.
  - by eapply lookup_weaken.
  - destruct (fs w' !! p) as [c|] eqn:E'; [|done].
    destruct (Hkeys _ _ E E') as (f & _ & Hin). by apply elem_of_nil in Hin.
Qed.

Import Fixture.

(** ** The contour levels of the figures *)

Lemma veq_refl (a : value) : veq a a.
Proof. destruct a; simpl; [exact I|reflexivity]. Qed.

Lemma contour_ladder_is_ladder (C : value) : is_ladder C (contour_ladder C).
Proof.
  split; [reflexivity|]. intros k lev Hk. unfold contour_ladder in Hk.
  rewrite list_lookup_fmap in Hk.
  destruct (seq 0 10 !! k) as [k'|] eqn:E; [|discriminate].
  apply lookup_seq in E as [-> _]. injection Hk as <-.
  unfold pow2. destruct C; simpl; [exact I|reflexivity].
Qed.

Section Levels.
Context `{Capabilities}.

Lemma drawn_levels source src_basename suffix C pf :
  drawn source src_basename suffix C pf -> levels_as_designed source C pf.2.
Proof.
  intros Hd. destruct Hd; unfold levels_as_designed; simpl;
    try reflexivity; try apply contour_ladder_is_ladder.
  - unfold mom1_levels. destruct (vgt _ _); [by left|by right].
  - eexists. split; [reflexivity|]. unfold pv_levels.
    by destruct (np_nanstd (data pv)).
Qed.

(** C3 (as amended). In a run of [main] the figures drawn from the
    intensity map (the survey overlays, the grey-scale map and the
    false-colour overlays) have as contour levels the ladder of the base
    contour [C]: ten levels, the [k]-th of which is [C * 2^k]; the
    significance map has the single level [C]; the velocity map is drawn
    with iso-velocity levels around the systemic velocity, and the
    position-velocity diagram with -2, 2 and 4 times the standard deviation
    of its own data, which the base contour has no part in. *)
Theorem contour_levels_by_design (source : Source) (src_basename : string)
    (view : Quantity) (suffix : string) (sofia : Z) (beam : option Beam)
    (range : value * value) (w w' : world) (r : result (option bool)) :
  main source src_basename view suffix sofia beam range w = (r, w') ->
  exists new,
    savefigs w' = savefigs w ++ new
    /\ Forall (fun pf =>
         exists hs hm C,
           fs w !! product_path src_basename source "_snr.fits" = Some (Fits hs)
           /\ fs w !! product_path src_basename source "_mom0.fits" = Some (Fits hm)
           /\ HIlowest_of (data hm) (data hs) range = Ok C
           /\ levels_as_designed source C pf.2) new.
Proof.
  intros Hrun. apply main_grows in Hrun as [_ (new & Hnew & Hall & _)].
  exists new. split; [exact Hnew|].
  eapply Forall_impl; [exact Hall|].
  intros pf (hs & hm & C & Hs & Hm & HC & Hd). exists hs, hm, C.
  repeat split; try done. by eapply drawn_levels.
Qed.

End Levels.

Lemma contour_levels_by_design_witness :
  exists new,
    savefigs (run net_sky (world1 ["DSS2 Blue"])).2 = [] ++ new
    /\ Forall (fun pf =>
         exists hs hm C,
           fs1 !! "run/J_cubelets/J_1_snr.fits" = Some (Fits hs)
           /\ fs1 !! "run/J_cubelets/J_1_mom0.fits" = Some (Fits hm)
           /\ HIlowest_of (data hm) (data hs) default_snr_range = Ok C
           /\ @levels_as_designed net_sky source1 C pf.2) new.
Proof.
  apply (@contour_levels_by_design net_sky source1 base default_opt_view "png" 2 None
           default_snr_range (world1 ["DSS2 Blue"]) _
           (run net_sky (world1 ["DSS2 Blue"])).1).
  vm_compute. reflexivity.
Defined.

(** A run for a source with base contour 40 that draws five figures, the
    position-velocity diagram last: its contour level -2 is no level of the
    ladder of the base contour. *)
Lemma pv_levels_off_the_ladder :
  HIlowest_of mom0_data snr_data default_snr_range = Ok (Num (80 # 2))
  /\ (run net_sky (world1 ["DSS2 Blue"])).1 = Ok (Some true)
  /\ exists p f lev,
      (p, f) ∈ savefigs (run net_sky (world1 ["DSS2 Blue"])).2
      /\ fig_kind f = FigPV
      /\ lev ∈ fig_levels f
      /\ ~ on_ladder (Num (80 # 2)) lev.
Proof.
  split; [reflexivity|]. split; [vm_compute; reflexivity|].
  destruct (savefigs (run net_sky (world1 ["DSS2 Blue"])).2 !! 4%nat) as [[p f]|] eqn:E;
    [|vm_compute in E; discriminate E].
  exists p, f, (Num (-2)). split; [by apply (list_elem_of_lookup_2 _ 4)|].
  vm_compute in E. injection E as <- <-. split; [reflexivity|]. split.
  - apply (list_elem_of_lookup_2 _ 0). reflexivity.
  - intros (k & Hk & Heq).
    do 10 (destruct k as [|k]; [vm_compute in Heq; discriminate|]). lia.
Qed.

(** ** The velocity map *)

Lemma same_shape_pixel (a b : image) (i j : nat) (x : value) :
  map length a = map length b -> pixel b i j = Some x -> exists v, pixel a i j = Some v.
Proof.
  intros Hlen. unfold pixel, image in *.
  destruct (b !! i) as [rb|] eqn:Hb; [|discriminate]. intros Hx.
  assert (Hi : map length a !! i = Some (length rb))
    by (by rewrite Hlen, list_lookup_fmap, Hb).
  rewrite list_lookup_fmap in Hi.
  destruct (a !! i) as [ra|]; [|discriminate]. injection Hi as Hi.
  apply lookup_lt_is_Some_2. rewrite Hi. by eapply lookup_lt_Some.
Qed.

Lemma mask_below_shape (mom1_reprojected hi_reprojected masked : image) (C : value) :
  mask_below mom1_reprojected hi_reprojected C = Some masked ->
  map length mom1_reprojected = map length hi_reprojected.
Proof.
  unfold mask_below, mask_assign. case_bool_decide as Hlen; [|discriminate]. intros _.
  rewrite Hlen. unfold arr_lt. rewrite map_map. apply map_ext. intros r. by rewrite length_map.
Qed.

Lemma mask_below_pixel (mom1_reprojected hi_reprojected masked : image) (C : value) :
  mask_below mom1_reprojected hi_reprojected C = Some masked ->
  forall i j v x,
    pixel mom1_reprojected i j = Some v ->
    pixel hi_reprojected i j = Some x ->
    pixel masked i j = Some (if vlt x C then NaN else v).
Proof.
  unfold mask_below, mask_assign. case_bool_decide; [|discriminate].
  intros [= <-] i j v x. unfold pixel, arr_lt, image in *.
  rewrite lookup_zip_with, list_lookup_fmap.
  destruct (mom1_reprojected !! i) as [r|]; [|discriminate].
  destruct (hi_reprojected !! i) as [s|]; [|discriminate]. simpl.
  rewrite lookup_zip_with, list_lookup_fmap. intros -> ->. reflexivity.
Qed.

Lemma vle_not_vlt (C x : value) : vle C x = true -> vlt x C = false.
Proof.
  destruct C as [|c], x as [|q]; simpl; try discriminate.
  unfold Qltb. by intros ->.
Qed.

Section Velocity.
Context `{Capabilities}.

(** What [make_mom1] shows at a pixel when it draws the velocity map. *)
Lemma make_mom1_masks_below_contour (source : Source) (src_basename : string)
    (cube_params : CubeParams) (patch : Patch) (opt_head : Header) (C : value)
    (view : Quantity) (suffix : string) (sofia : Z) (w w' : world) (mom1 hi : hdu) :
  fs w !! figure_path src_basename source "_mom1" suffix = None ->
  fs w !! product_path src_basename source "_mom1.fits" = Some (Fits mom1) ->
  fs w !! product_path src_basename source "_mom0.fits" = Some (Fits hi) ->
  make_mom1 source src_basename cube_params patch opt_head C view suffix sofia w
  = (Ok tt, w') ->
  let mom1_kms := mkHdu (header mom1) (mom1_to_kms source (data mom1)) in
  exists masked levels,
    fs w' !! figure_path src_basename source "_mom1" suffix
    = Some (Figure (mkFigure FigMom1 opt_head (Gray masked) (Some patch) levels))
    /\ mask_below (reproject_interp mom1_kms opt_head).1 (reproject_interp hi opt_head).1 C
       = Some masked.
Proof.
  intros Hout Hmom1 Hmom0 Hrun. unfold make_mom1 in Hrun. unfold_prims. simpl in Hrun.
  rewrite Hout in Hrun; simpl in Hrun. rewrite Hmom1 in Hrun; simpl in Hrun.
  match type of Hrun with
  | context [match mom1_velocities ?a ?b ?c ?w with _ => _ end] =>
      destruct (mom1_velocities a b c w) as [[[[v_sys velmin] velmax]|?] ?] eqn:E;
      apply mom1_velocities_pure in E; subst; simpl in Hrun
  end; [|discriminate].
  destruct (reproject_interp _ opt_head) as [mom1_reprojected fp1] eqn:R1 in Hrun.
  simpl in Hrun. rewrite Hmom0 in Hrun; simpl in Hrun.
  destruct (reproject_interp hi opt_head) as [hi_reprojected fp0] eqn:R0.
  destruct (mask_below mom1_reprojected hi_reprojected C) as [masked|] eqn:Hmask;
    simpl in Hrun; [|discriminate].
  destruct (contour_check masked _) as [[]|e]; simpl in Hrun; [|discriminate].
  injection Hrun as <-. simpl. rewrite lookup_insert_eq.
  exists masked, (mom1_levels v_sys velmin velmax). split; [reflexivity|].
  by rewrite R1.
Qed.

(** C4. With a reprojection whose footprint is full only where its output
    is valid, as [reproject] documents, the velocity map that [make_mom1]
    draws shows, at every pixel of the primary grid: the invalid sentinel
    where the co-registered intensity is strictly below the base contour
    [C], whatever the footprint; and a valid velocity where the intensity is
    at least [C] and the footprint of the velocity product is full. *)
Theorem velocity_map_invalidation (source : Source) (src_basename : string)
    (cube_params : CubeParams) (patch : Patch) (opt_head : Header) (C : value)
    (view : Quantity) (suffix : string) (sofia : Z) (w w' : world) (mom1 hi : hdu) :
  let mom1_kms := mkHdu (header mom1) (mom1_to_kms source (data mom1)) in
  (forall i j, pixel (reproject_interp mom1_kms opt_head).2 i j = Some (Num 1) ->
               exists q, pixel (reproject_interp mom1_kms opt_head).1 i j = Some (Num q)) ->
  fs w !! figure_path src_basename source "_mom1" suffix = None ->
  fs w !! product_path src_basename source "_mom1.fits" = Some (Fits mom1) ->
  fs w !! product_path src_basename source "_mom0.fits" = Some (Fits hi) ->
  make_mom1 source src_basename cube_params patch opt_head C view suffix sofia w
  = (Ok tt, w') ->
  exists masked levels,
    fs w' !! figure_path src_basename source "_mom1" suffix
    = Some (Figure (mkFigure FigMom1 opt_head (Gray masked) (Some patch) levels))
    /\ forall i j x,
        pixel (reproject_interp hi opt_head).1 i j = Some x ->
        (vlt x C = true -> pixel masked i j = Some NaN)
        /\ (vle C x = true ->
            pixel (reproject_interp mom1_kms opt_head).2 i j = Some (Num 1) ->
            exists q, pixel masked i j = Some (Num q)).
Proof.
  intros mom1_kms Hvalid Hout Hmom1 Hmom0 Hrun.
  destruct (make_mom1_masks_below_contour _ _ _ _ _ _ _ _ _ _ _ _ _ Hout Hmom1 Hmom0 Hrun)
    as (masked & levels & Hfig & Hmask).
  exists masked, levels. split; [exact Hfig|]. intros i j x Hx.
  destruct (same_shape_pixel _ _ i j x (mask_below_shape _ _ _ _ Hmask) Hx) as [v Hv].
  pose proof (mask_below_pixel _ _ _ _ Hmask i j v x Hv Hx) as Hm. split.
  - intros Hlt. by rewrite Hlt in Hm.
  - intros Hle Hfoot. apply vle_not_vlt in Hle. rewrite Hle in Hm.
    destruct (Hvalid i j Hfoot) as [q Hq]. exists q.
    fold mom1_kms in Hv. congruence.
Qed.

End Velocity.

Lemma velocity_map_invalidation_witness :
  let mom1_kms := mkHdu (head "mom1") (@mom1_to_kms net_sky source1 mom1_data) in
  exists masked levels,
    fs (@make_mom1 net_sky source1 base cube1 (mkPatch 1 1) (head "mom0") (Num 40)
          default_opt_view "png" 2 (world1 [])).2 !! "run/J_figures/J_1_mom1.png"
    = Some (Figure (mkFigure FigMom1 (head "mom0") (Gray masked) (Some (mkPatch 1 1)) levels))
    /\ forall i j x,
        pixel (@reproject_interp net_sky (mkHdu (head "mom0") mom0_data) (head "mom0")).1 i j
        = Some x ->
        (vlt x (Num 40) = true -> pixel masked i j = Some NaN)
        /\ (vle (Num 40) x = true ->
            pixel (@reproject_interp net_sky mom1_kms (head "mom0")).2 i j = Some (Num 1) ->
            exists q, pixel masked i j = Some (Num q)).
Proof.
  intros mom1_kms.
  apply (@velocity_map_invalidation net_sky source1 base cube1 (mkPatch 1 1) (head "mom0")
           (Num 40) default_opt_view "png" 2 (world1 []) _
           (mkHdu (head "mom1") mom1_data) (mkHdu (head "mom0") mom0_data)).
  - intros [|[|i]] [|[|[|j]]]; vm_compute; try discriminate;
      intros _; eexists; reflexivity.
  - vm_compute. reflexivity.
  - vm_compute. reflexivity.
  - vm_compute. reflexivity.
  - vm_compute. reflexivity.
Defined.

(** ** The position-velocity figure *)

Section PositionVelocity.
Context `{Capabilities}.

Lemma make_pv_done source src_basename cube_params suffix w w' :
  make_pv source src_basename cube_params suffix w = (Ok tt, w') ->
  (exists pv, fs w' !! product_path src_basename source "_pv.fits" = Some (Fits pv)) ->
  is_Some (fs w' !! figure_path src_basename source "_pv" suffix).
Proof.
  intros Hrun [pv Hpv]. unfold make_pv in Hrun. exec Hrun;
    try discriminate; try injection Hrun as <-; simpl in *;
    try (rewrite lookup_insert_eq); eauto; congruence.
Qed.

Lemma main_ends_with_pv source src_basename view suffix sofia beam range w w' :
  main source src_basename view suffix sofia beam range w = (Ok (Some true), w') ->
  exists pos cp w1 w2,
    make_pv (set_position source pos) src_basename cp suffix w1 = (Ok tt, w2)
    /\ quiet w2 w'.
Proof.
  intros Hrun. unfold main in Hrun.
  apply bind_ok_inv in Hrun as ([] & w0 & _ & Hrun).
  apply bind_ok_inv in Hrun as (cube_params & w1 & _ & Hrun).
  apply bind_ok_inv in Hrun as ([HIlowest|] & w2 & _ & Hrun); [|discriminate].
  apply bind_ok_inv in Hrun as ([[source' cp] l] & w3 & H3 & Hrun).
  apply main_images_source in H3 as [pos ->].
  apply bind_ok_inv in Hrun as ([] & w4 & H4 & Hrun).
  exists pos, cp, w3, w4. split; [exact H4|].
  revert Hrun. generalize w4 (Ok (Some true)) w'.
  change (preserves quiet
    (print (MsgDone (id (set_position source pos)) (name (set_position source pos))) ;;
     ret (Some true))). pres.
Qed.

(** A run that returns [True] has read both products of the base contour. *)
Lemma main_done_read source src_basename view suffix sofia beam range w w' :
  main source src_basename view suffix sofia beam range w = (Ok (Some true), w') ->
  products_read source src_basename w.
Proof.
  intros Hrun. unfold main in Hrun.
  apply bind_ok_inv in Hrun as ([] & w0 & H0 & Hrun).
  apply bind_ok_inv in Hrun as (cube_params & w1 & H1 & Hrun).
  apply bind_ok_inv in Hrun as ([HIlowest|] & w2 & H2 & Hrun); [|discriminate].
  apply base_contour_step_inv in H2 as (hs & hm & Hs & Hm & _).
  assert (F0 : fs w0 = fs w) by (by injection H0 as <-).
  assert (F1 : fs w1 = fs w0).
  { destruct (sofia =? 2)%Z; [|destruct (sofia =? 1)%Z].
    - apply bind_ok_inv in H1 as (? & ? & [= _ <-] & [= _ <-]). done.
    - apply bind_ok_inv in H1 as (? & ? & [= _ <-] & [= _ <-]). done.
    - by injection H1 as _ <-. }
  rewrite F1, F0 in Hs, Hm. split; eauto.
Qed.

(** C7 (as amended). Whenever [main] runs to its end, which needs the
    significance and the intensity product for the base contour, the
    position-velocity figure is there afterwards if the PV product file is:
    [make_pv] is run whether or not a survey image gave a primary grid. When
    the significance product or the intensity product is missing, [main]
    does not run to its end and draws no figure at all, the
    position-velocity figure included. *)
Theorem pv_figure_whatever_the_grid (source : Source) (src_basename : string)
    (view : Quantity) (suffix : string) (sofia : Z) (beam : option Beam)
    (range : value * value) (w w' : world) (r : result (option bool)) :
  main source src_basename view suffix sofia beam range w = (r, w') ->
  (r = Ok (Some true) ->
   forall pv, fs w !! product_path src_basename source "_pv.fits" = Some (Fits pv) ->
              is_Some (fs w' !! figure_path src_basename source "_pv" suffix))
  /\ (fs w !! product_path src_basename source "_snr.fits" = None
      \/ fs w !! product_path src_basename source "_mom0.fits" = None ->
      r <> Ok (Some true) /\ savefigs w' = savefigs w /\ fs w' = fs w).
Proof.
  intros Hrun. pose proof (main_grows _ _ _ _ _ _ _ _ _ _ Hrun) as Hgrows. split.
  - intros -> pv Hpv.
    apply main_ends_with_pv in Hrun as (pos & cp & w1 & w2 & Hpvrun & (Qf & _ & _)).
    rewrite Qf in *. eapply (make_pv_done (set_position source pos)); [exact Hpvrun|].
    exists pv. rewrite <- Qf. eapply lookup_weaken; [exact Hpv|apply Hgrows].
  - intros Hmiss.
    assert (Hnone : ~ products_read source src_basename w).
    { intros [[hs Hs] [hm Hm]]. destruct Hmiss; congruence. }
    assert (Hsame : savefigs w' = savefigs w).
    { destruct Hgrows as [_ (new & -> & Hall & _)].
      destruct new as [|pf new]; [by rewrite app_nil_r|].
      apply Forall_cons in Hall as [(hs & hm & C & Hs & Hm & _) _].
      exfalso. apply Hnone. split; eauto. }
    split; [|split; [exact Hsame|by eapply grows_nothing]].
    intros ->. by apply main_done_read in Hrun.
Qed.

End PositionVelocity.

Lemma pv_figure_whatever_the_grid_witness :
  (match (@main_images net_dss2_http source1 base (Some cube1) default_opt_view "png"
            (Num 40) (world1 ["DSS2 Blue"])).1 with
   | Ok (_, _, l) => opt_head l = None
   | Raise _ => False
   end
   /\ is_Some (fs (run net_dss2_http (world1 ["DSS2 Blue"])).2 !! "run/J_figures/J_1_pv.png"))
  /\ (run net_sky (mkWorld fs_no_snr ["DSS2 Blue"] [] [] [])).1 <> Ok (Some true)
     /\ savefigs (run net_sky (mkWorld fs_no_snr ["DSS2 Blue"] [] [] [])).2 = []
     /\ fs (run net_sky (mkWorld fs_no_snr ["DSS2 Blue"] [] [] [])).2 = fs_no_snr.
Proof.
  split.
  - split; [vm_compute; reflexivity|].
    apply (proj1 (@pv_figure_whatever_the_grid net_dss2_http source1 base default_opt_view
                    "png" 2 None default_snr_range (world1 ["DSS2 Blue"])
                    (run net_dss2_http (world1 ["DSS2 Blue"])).2
                    (run net_dss2_http (world1 ["DSS2 Blue"])).1
                    ltac:(vm_compute; reflexivity))
             ltac:(vm_compute; reflexivity) (mkHdu (head "pv") pv_data)).
    vm_compute. reflexivity.
  - apply (proj2 (@pv_figure_whatever_the_grid net_sky source1 base default_opt_view
                    "png" 2 None default_snr_range (mkWorld fs_no_snr ["DSS2 Blue"] [] [] [])
                    (run net_sky (mkWorld fs_no_snr ["DSS2 Blue"] [] [] [])).2
                    (run net_sky (mkWorld fs_no_snr ["DSS2 Blue"] [] [] [])).1
                    ltac:(vm_compute; reflexivity))).
    left. vm_compute. reflexivity.
Defined.

(** The PV product is there, the significance map is not: [main] returns
    without the position-velocity figure. *)
Lemma no_pv_figure_without_snr :
  let w := mkWorld fs_no_snr ["DSS2 Blue"] [] [] [] in
  (exists pv, fs w !! "run/J_cubelets/J_1_pv.fits" = Some (Fits pv))
  /\ fs w !! "run/J_figures/J_1_pv.png" = None
  /\ (run net_sky w).1 = Ok None
  /\ fs (run net_sky w).2 !! "run/J_figures/J_1_pv.png" = None
  /\ savefigs (run net_sky w).2 = [].
Proof.
  intros w. split; [eexists; reflexivity|]. repeat split; vm_compute; reflexivity.
Qed.

(** ** The caller's list *)

Lemma py_remove_None x l : py_remove x l = None <-> x ∉ l.
Proof.
  induction l as [|y l IH]; simpl.
  - split; [intros _; apply not_elem_of_nil|done].
  - destruct (String.eqb_spec y x) as [->|Hne].
    + split; [discriminate|]. intros Hn. exfalso. apply Hn. left.
    + rewrite not_elem_of_cons. destruct (py_remove x l) eqn:E.
      * split; [discriminate|]. intros [_ Hn]. apply IH in Hn. discriminate.
      * split; [|done]. intros _. split; [done|]. by apply IH.
Qed.

Lemma drop_first_absent x l : x ∉ l -> drop_first x l = l.
Proof. intros Hn. unfold drop_first. by rewrite (proj2 (py_remove_None x l) Hn). Qed.

Lemma drop_first_cons x y l :
  drop_first x (y :: l) = if String.eqb y x then l else y :: drop_first x l.
Proof.
  unfold drop_first; simpl. destruct (String.eqb y x); [done|].
  by destruct (py_remove x l).
Qed.

Lemma elem_of_drop_first x y l : y ∈ drop_first x l -> y ∈ l.
Proof.
  induction l as [|z l IH]; [done|]. rewrite drop_first_cons.
  destruct (String.eqb z x).
  - intros Hy. by right.
  - rewrite !elem_of_cons. intros [->|Hy]; [by left|right; by apply IH].
Qed.

Lemma drop_first_NoDup x l : NoDup l -> NoDup (drop_first x l) /\ x ∉ drop_first x l.
Proof.
  induction l as [|z l IH]; intros Hnd.
  - split; [constructor|apply not_elem_of_nil].
  - apply NoDup_cons in Hnd as [Hz Hnd]. rewrite drop_first_cons.
    destruct (String.eqb_spec z x) as [->|Hne]; [done|].
    destruct (IH Hnd) as [IH1 IH2]. split.
    + apply NoDup_cons. split; [|done]. intros Hin. by apply elem_of_drop_first in Hin.
    + rewrite not_elem_of_cons. split; [congruence|done].
Qed.

Lemma drop_first_length x l :
  x ∈ l -> S (length (drop_first x l)) = length l.
Proof.
  induction l as [|z l IH]; [by intros ?%elem_of_nil|].
  rewrite drop_first_cons. destruct (String.eqb_spec z x) as [->|Hne]; [done|].
  rewrite elem_of_cons. intros [->|Hin]; [done|]. simpl. by rewrite IH.
Qed.

Lemma drop_first_length_le x l : length (drop_first x l) <= length l.
Proof.
  destruct (decide (x ∈ l)) as [Hin|Hn].
  - apply drop_first_length in Hin. lia.
  - by rewrite drop_first_absent.
Qed.

Lemma elem_of_drop_first_ne x y l : y <> x -> y ∈ l -> y ∈ drop_first x l.
Proof.
  intros Hne. induction l as [|z l IH]; [done|]. rewrite drop_first_cons.
  destruct (String.eqb_spec z x) as [->|Hzx].
  - rewrite elem_of_cons. intros [->|Hy]; [done|done].
  - rewrite !elem_of_cons. intros [->|Hy]; [by left|right; by apply IH].
Qed.

Section CallersList.
Context `{Capabilities}.

Lemma surveys_remove_ok x w w' :
  surveys_remove x w = (Ok tt, w') -> surveys w' = drop_first x (surveys w).
Proof.
  unfold surveys_remove, drop_first. destruct (py_remove x (surveys w)); [|discriminate].
  by intros [= <-].
Qed.

Lemma hst_block_surveys source src_basename cube_params C suffix l w l' w' :
  hst_block source src_basename cube_params C suffix l w = (Ok l', w') ->
  surveys w' = drop_first "hst" (surveys w).
Proof.
  intros Hrun. unfold hst_block in Hrun.
  apply bind_ok_inv in Hrun as (now & w0 & [= <- <-] & Hrun).
  destruct (py_in "hst" (surveys w) || py_in "HST" (surveys w)) eqn:Hin.
  - cbv zeta in Hrun.
    apply bind_ok_inv in Hrun as ([] & w1 & H1 & Hrun).
    apply bind_ok_inv in Hrun as (s0 & w2 & H2 & Hrun).
    apply bind_ok_inv in Hrun as (l1 & w3 & H3 & Hrun).
    apply bind_ok_inv in Hrun as ([] & w4 & H4 & [= <- <-]).
    apply surveys_remove_ok in H4. rewrite H4. f_equal.
    assert (K1 : surveys w1 = surveys w).
    { destruct (get_hst_cosmos _ _).
      - by eapply (figure_step_keeps _ _ (make_overlay_drawn _ _ _ _ _ C _ _)).
      - by injection H1 as <-. }
    assert (K2 : surveys w2 = surveys w1) by (by eapply (preserves_surveys_head keeps_surveys)).
    assert (K3 : surveys w3 = surveys w2).
    { destruct (s0 =? "hst")%string; [destruct (get_hst_cosmos _ _)|];
        injection H3 as <- <- || discriminate; done. }
    congruence.
  - injection Hrun as <- <-. apply orb_false_iff in Hin as [Hin _].
    apply py_in_false in Hin. by rewrite drop_first_absent.
Qed.


Lemma panstarrs_block_surveys source src_basename cube_params pos C suffix l w l' w' :
  panstarrs_block source src_basename cube_params pos C suffix l w = (Ok l', w') ->
  surveys w' = drop_first "panstarrs" (surveys w).
Proof.
  intros Hrun. unfold panstarrs_block in Hrun.
  apply bind_ok_inv in Hrun as (now & w0 & [= <- <-] & Hrun).
  destruct (py_in "panstarrs" (surveys w)) eqn:Hin.
  - apply bind_ok_inv in Hrun as ([pstar_im pstar_head] & w1 & H1 & Hrun).
    apply bind_ok_inv in Hrun as ([] & w2 & H2 & Hrun).
    apply bind_ok_inv in Hrun as (s0 & w3 & H3 & Hrun). cbv zeta in Hrun.
    apply bind_ok_inv in Hrun as ([] & w4 & H4 & [= <- <-]).
    apply surveys_remove_ok in H4. rewrite H4. f_equal.
    assert (K1 : surveys w1 = surveys w) by (by eapply (get_panstarrs_step keeps_surveys)).
    assert (K2 : surveys w2 = surveys w1).
    { destruct pstar_im.
      - by eapply (figure_step_keeps _ _ (make_color_im_drawn _ _ _ _ _ _ C _ _)).
      - by injection H2 as <-. }
    assert (K3 : surveys w3 = surveys w2) by (by eapply (preserves_surveys_head keeps_surveys)).
    congruence.
  - injection Hrun as <- <-. apply py_in_false in Hin. by rewrite drop_first_absent.
Qed.

Lemma decals_block_surveys source src_basename cube_params pos C suffix l w l' w' :
  decals_block source src_basename cube_params pos C suffix l w = (Ok l', w') ->
  surveys w' = drop_first "decals" (surveys w).
Proof.
  intros Hrun. unfold decals_block in Hrun.
  apply bind_ok_inv in Hrun as (now & w0 & [= <- <-] & Hrun).
  destruct (py_in "decals" (surveys w)) eqn:Hin.
  - apply bind_ok_inv in Hrun as ([decals_im decals_head] & w1 & H1 & Hrun).
    apply bind_ok_inv in Hrun as ([] & w2 & H2 & Hrun).
    apply bind_ok_inv in Hrun as (s0 & w3 & H3 & Hrun). cbv zeta in Hrun.
    apply bind_ok_inv in Hrun as ([] & w4 & H4 & [= <- <-]).
    apply surveys_remove_ok in H4. rewrite H4. f_equal.
    assert (K1 : surveys w1 = surveys w) by (by eapply (get_decals_step keeps_surveys)).
    assert (K2 : surveys w2 = surveys w1)
      by (by eapply (figure_step_keeps _ _ (make_color_im_drawn _ _ _ _ _ _ C _ _))).
    assert (K3 : surveys w3 = surveys w2) by (by eapply (preserves_surveys_head keeps_surveys)).
    congruence.
  - injection Hrun as <- <-. apply py_in_false in Hin. by rewrite drop_first_absent.
Qed.

Lemma survey_blocks_surveys source src_basename cube_params pos C suffix l w l' w' :
  survey_blocks source src_basename cube_params pos C suffix l w = (Ok l', w') ->
  surveys w'
  = drop_first "decals" (drop_first "panstarrs" (drop_first "hst" (surveys w))).
Proof.
  intros Hrun. unfold survey_blocks in Hrun.
  apply bind_ok_inv in Hrun as (l1 & w1 & H1 & Hrun).
  apply bind_ok_inv in Hrun as (l2 & w2 & H2 & Hrun).
  apply bind_ok_inv in Hrun as (l3 & w3 & H3 & Hrun).
  apply hst_block_surveys in H1. apply panstarrs_block_surveys in H2.
  apply decals_block_surveys in H3.
  apply (figure_step_keeps _ _ (skyview_block_step _ _ _ _ C _ _)) in Hrun.
  unfold keeps_surveys in Hrun. congruence.
Qed.

Lemma main_surveys source src_basename view suffix sofia beam range w w' :
  main source src_basename view suffix sofia beam range w = (Ok (Some true), w') ->
  surveys w'
  = drop_first "decals" (drop_first "panstarrs" (drop_first "hst" (surveys w))).
Proof.
  intros Hrun. unfold main in Hrun.
  apply bind_ok_inv in Hrun as ([] & w0 & H0 & Hrun).
  apply bind_ok_inv in Hrun as (cube_params & w1 & H1 & Hrun).
  apply bind_ok_inv in Hrun as ([HIlowest|] & w2 & H2 & Hrun); [|discriminate].
  apply bind_ok_inv in Hrun as ([[source' cp] l] & w3 & H3 & Hrun).
  apply bind_ok_inv in Hrun as ([] & w4 & H4 & Hrun).
  apply bind_ok_inv in Hrun as ([] & w5 & H5 & [= <-]).
  assert (K0 : surveys w0 = surveys w) by (by injection H0 as <-).
  assert (K1 : surveys w1 = surveys w0).
  { destruct (sofia =? 2)%Z; [|destruct (sofia =? 1)%Z].
    - apply bind_ok_inv in H1 as (? & ? & [= _ <-] & [= _ <-]). done.
    - apply bind_ok_inv in H1 as (? & ? & [= _ <-] & [= _ <-]). done.
    - by injection H1 as _ <-. }
  assert (K2 : surveys w2 = surveys w1)
    by (by eapply (base_contour_step_step keeps_surveys)).
  assert (K4 : surveys w4 = surveys w3)
    by (by eapply (figure_step_keeps _ _ (make_pv_drawn _ _ _ HIlowest _))).
  assert (K5 : surveys w5 = surveys w4) by (by injection H5 as <-).
  unfold main_images in H3.
  apply bind_ok_inv in H3 as (cp0 & u0 & G0 & H3). cbv zeta in H3.
  apply bind_ok_inv in H3 as ([] & u1 & G1 & H3).
  apply bind_ok_inv in H3 as (l0 & u2 & G2 & H3).
  apply bind_ok_inv in H3 as ([] & u3 & G3 & [= _ _ _ <-]).
  assert (J0 : surveys u0 = surveys w2).
  { destruct cube_params; [by injection G0 as _ <-|discriminate]. }
  assert (J1 : surveys u1 = surveys u0).
  { destruct (_ || _); by injection G1 as <-. }
  apply survey_blocks_surveys in G2.
  apply (figure_step_keeps _ _ (grid_block_step _ _ _ HIlowest _ _)) in G3.
  unfold keeps_surveys in G3. congruence.
Qed.

Lemma hst_block_skip source src_basename cube_params C suffix l w :
  "hst" ∉ surveys w -> "HST" ∉ surveys w ->
  hst_block source src_basename cube_params C suffix l w = (Ok l, w).
Proof.
  intros H1%py_in_false H2%py_in_false. unfold hst_block, bind, get_surveys.
  by rewrite H1, H2.
Qed.

Lemma panstarrs_block_skip source src_basename cube_params hi_pos_icrs C suffix l w :
  "panstarrs" ∉ surveys w ->
  panstarrs_block source src_basename cube_params hi_pos_icrs C suffix l w = (Ok l, w).
Proof.
  intros H1%py_in_false. unfold panstarrs_block, bind, get_surveys. by rewrite H1.
Qed.

Lemma decals_block_skip source src_basename cube_params hi_pos_icrs C suffix l w :
  "decals" ∉ surveys w ->
  decals_block source src_basename cube_params hi_pos_icrs C suffix l w = (Ok l, w).
Proof.
  intros H1%py_in_false. unfold decals_block, bind, get_surveys. by rewrite H1.
Qed.

(** The bare [return] of [main] comes before the survey blocks. *)
Lemma main_returns_early source src_basename view suffix sofia beam range w w' :
  main source src_basename view suffix sofia beam range w = (Ok None, w') ->
  surveys w' = surveys w.
Proof.
  intros Hrun. unfold main in Hrun.
  apply bind_ok_inv in Hrun as ([] & w0 & H0 & Hrun).
  apply bind_ok_inv in Hrun as (cube_params & w1 & H1 & Hrun).
  apply bind_ok_inv in Hrun as (r1 & w2 & H2 & Hrun).
  assert (K0 : surveys w0 = surveys w) by (by injection H0 as <-).
  assert (K1 : surveys w1 = surveys w0).
  { destruct (sofia =? 2)%Z; [|destruct (sofia =? 1)%Z].
    - apply bind_ok_inv in H1 as (? & ? & [= _ <-] & [= _ <-]). done.
    - apply bind_ok_inv in H1 as (? & ? & [= _ <-] & [= _ <-]). done.
    - by injection H1 as _ <-. }
  assert (K2 : surveys w2 = surveys w1)
    by (by eapply (base_contour_step_step keeps_surveys)).
  destruct r1 as [HIlowest|].
  - apply bind_ok_inv in Hrun as ([[source' cp] l] & w3 & _ & Hrun).
    apply bind_ok_inv in Hrun as ([] & w4 & _ & Hrun).
    apply bind_ok_inv in Hrun as ([] & w5 & _ & [=]).
  - injection Hrun as <-. congruence.
Qed.

(** C10 (as amended). A call of [main] that runs to its end has removed, in
    the caller's list object, the first occurrence of each of 'hst',
    'panstarrs' and 'decals' that the list held: the caller sees a shorter
    list when it held one of them. When the list held no name twice, none
    of the three is left in it, so a later call that shares the object skips
    the PanSTARRS and the DECaLS block, and skips the HST block too unless
    the list names 'HST' in upper case, which [main] never removes. A call
    that returns early, because a product of the base contour is missing,
    leaves the list as it was. *)
Theorem main_shortens_the_callers_list (source : Source) (src_basename : string)
    (view : Quantity) (suffix : string) (sofia : Z) (beam : option Beam)
    (range : value * value) (w w' : world) (r : result (option bool)) :
  main source src_basename view suffix sofia beam range w = (r, w') ->
  (r = Ok (Some true) ->
   surveys w' = drop_first "decals" (drop_first "panstarrs" (drop_first "hst" (surveys w)))
   /\ (("hst" ∈ surveys w) \/ ("panstarrs" ∈ surveys w) \/ ("decals" ∈ surveys w) ->
       length (surveys w') < length (surveys w))
   /\ (NoDup (surveys w) ->
       ("hst" ∉ surveys w') /\ ("panstarrs" ∉ surveys w') /\ ("decals" ∉ surveys w')
       /\ forall cube_params hi_pos_icrs C l v,
            surveys v = surveys w' ->
            panstarrs_block source src_basename cube_params hi_pos_icrs C suffix l v
            = (Ok l, v)
            /\ decals_block source src_basename cube_params hi_pos_icrs C suffix l v
               = (Ok l, v)
            /\ ("HST" ∉ surveys w ->
                hst_block source src_basename cube_params C suffix l v = (Ok l, v))))
  /\ (r = Ok None -> surveys w' = surveys w).
Proof.
  intros Hrun. split; [|intros ->; by eapply main_returns_early].
  intros ->. apply main_surveys in Hrun. rewrite Hrun. clear Hrun.
  set (l := surveys w). split; [reflexivity|]. split.
  - pose proof (drop_first_length_le "hst" l).
    pose proof (drop_first_length_le "panstarrs" (drop_first "hst" l)).
    pose proof (drop_first_length_le "decals" (drop_first "panstarrs" (drop_first "hst" l))).
    intros [Hin|[Hin|Hin]].
    + apply drop_first_length in Hin. lia.
    + apply (elem_of_drop_first_ne "hst") in Hin; [|done].
      apply drop_first_length in Hin. lia.
    + apply (elem_of_drop_first_ne "hst") in Hin; [|done].
      apply (elem_of_drop_first_ne "panstarrs") in Hin; [|done].
      apply drop_first_length in Hin. lia.
  - intros Hnd.
    destruct (drop_first_NoDup "hst" l Hnd) as [N1 A1].
    destruct (drop_first_NoDup "panstarrs" _ N1) as [N2 A2].
    destruct (drop_first_NoDup "decals" _ N2) as [N3 A3].
    assert (Hhst : "hst" ∉ drop_first "decals" (drop_first "panstarrs" (drop_first "hst" l))).
    { intros Hin. by do 2 apply elem_of_drop_first in Hin. }
    assert (Hpan : "panstarrs"
                   ∉ drop_first "decals" (drop_first "panstarrs" (drop_first "hst" l))).
    { intros Hin. by apply elem_of_drop_first in Hin. }
    split; [exact Hhst|]. split; [exact Hpan|]. split; [exact A3|].
    intros cube_params hi_pos_icrs C l' v Hv. split; [|split].
    + apply panstarrs_block_skip. by rewrite Hv.
    + apply decals_block_skip. by rewrite Hv.
    + intros HHST. apply hst_block_skip; rewrite Hv; [exact Hhst|].
      intros Hin. by do 3 apply elem_of_drop_first in Hin.
Qed.

End CallersList.

Lemma main_shortens_the_callers_list_witness :
  (surveys (run net_hst (world1 ["hst"; "DSS2 Blue"])).2 = ["DSS2 Blue"]
   /\ length (surveys (run net_hst (world1 ["hst"; "DSS2 Blue"])).2) < 2
   /\ forall l v, surveys v = surveys (run net_hst (world1 ["hst"; "DSS2 Blue"])).2 ->
                  @hst_block net_hst source1 base cube1 (Num 40) "png" l v = (Ok l, v))
  /\ surveys (run net_hst (mkWorld fs_no_snr ["hst"; "DSS2 Blue"] [] [] [])).2
     = ["hst"; "DSS2 Blue"].
Proof.
  split.
  - destruct (proj1 (@main_shortens_the_callers_list net_hst source1 base default_opt_view
                       "png" 2 None default_snr_range (world1 ["hst"; "DSS2 Blue"])
                       (run net_hst (world1 ["hst"; "DSS2 Blue"])).2
                       (run net_hst (world1 ["hst"; "DSS2 Blue"])).1
                       ltac:(vm_compute; reflexivity))
                    ltac:(vm_compute; reflexivity)) as (Heq & Hlen & Hnd).
    split; [exact Heq|]. split; [apply Hlen; left; left|].
    intros l v Hv.
    destruct (Hnd ltac:(apply (bool_decide_unpack _); vm_compute; exact I))
      as (_ & _ & _ & Hlater).
    apply (Hlater cube1 (mkSkyCoord 150 2 "icrs" None) (Num 40) l v Hv).
    apply (bool_decide_unpack _). vm_compute. exact I.
  - apply (proj2 (@main_shortens_the_callers_list net_hst source1 base default_opt_view
                    "png" 2 None default_snr_range
                    (mkWorld fs_no_snr ["hst"; "DSS2 Blue"] [] [] [])
                    (run net_hst (mkWorld fs_no_snr ["hst"; "DSS2 Blue"] [] [] [])).2
                    (run net_hst (mkWorld fs_no_snr ["hst"; "DSS2 Blue"] [] [] [])).1
                    ltac:(vm_compute; reflexivity))).
    vm_compute. reflexivity.
Defined.

(** The list names 'hst' and the significance map is missing: [main]
    returns and the caller's list is as long as before, 'hst' still in it.
    And the list ['hst', 'HST'], which names nothing twice: the first call
    runs to its end and leaves ['HST'], for which a second call enters the
    HST block again, finds the overlay there and fails on [remove]. *)
Lemma list_untouched_without_snr :
  let w := mkWorld fs_no_snr ["hst"; "DSS2 Blue"] [] [] [] in
  let first := run net_hst_only (world1 ["hst"; "HST"]) in
  let second := run net_hst_only first.2 in
  ("hst" ∈ surveys w)
  /\ (run net_hst w).1 = Ok None
  /\ surveys (run net_hst w).2 = ["hst"; "DSS2 Blue"]
  /\ first.1 = Ok (Some true)
  /\ surveys first.2 = ["HST"]
  /\ second.1 = Raise ValueError
  /\ exists k, stdout second.2 !! (length (stdout first.2) + k)%nat
               = Some (MsgExists "run/J_figures/J_1_mom0hst.png").
Proof.
  intros w first second. split; [left|]. split; [vm_compute; reflexivity|].
  split; [vm_compute; reflexivity|].
  destruct first as [r1 w1] eqn:E1. vm_compute in E1. injection E1 as <- <-.
  split; [reflexivity|]. split; [reflexivity|].
  destruct second as [r2 w2] eqn:E2. vm_compute in E2. injection E2 as <- <-.
  split; [reflexivity|]. exists 2%nat. reflexivity.
Qed.

(** ** What a pass of the loop over the surveys does *)

Section Pass.
Context `{Capabilities}.
Variables (source : Source) (src_basename : string) (cube_params : CubeParams).
Variables (hi_pos_icrs : SkyCoord) (C : value) (suffix : string).


(** [make_overlay] raises a [ValueError] only when the renderer refuses the
    ladder, after the intensity product was opened and before anything is
    written. *)
Lemma make_overlay_raises p opt survey w e w' :
  make_overlay source src_basename cube_params p opt C suffix survey w = (Raise e, w') ->
  e = TypeError \/ e = OSError
  \/ (e = ValueError
      /\ (exists o, opt = Some o)
      /\ fs w !! overlay_path src_basename source suffix survey = None
      /\ exists hm,
          fs w !! product_path src_basename source "_mom0.fits" = Some (Fits hm)
          /\ contour_check (data hm) (contour_ladder C) = Raise ValueError).
Proof.
  intros Hrun. unfold make_overlay in Hrun. unfold_prims. simpl in Hrun.
  repeat exec_step Hrun; try discriminate Hrun.
  all: injection Hrun as <- <-.
  - destruct (contour_check_raises _ _ _ Hcheck) as [[-> _]|(-> & _)]; [by left|].
    right. right. split; [done|]. split; [by eexists|]. split; [exact Hfs|]. by exists h.
  - by left.
  - right. by left.
Qed.


(** What the [except] clauses of the loop catch was raised by the query or
    is the renderer's refusal of the ladder. *)
Lemma skyview_caught survey l w e w1 :
  (overlay_image <- get_skyview hi_pos_icrs (opt_view l) survey ;;
   make_overlay source src_basename cube_params (patch l) overlay_image C suffix survey ;;
   s0 <- surveys_head ;;
   if String.eqb s0 survey
   then match overlay_image with
        | Some o => ret (set_opt_head l (Some (header o)))
        | None => raise TypeError
        end
   else ret l) w = (Raise e, w1) ->
  e = ValueError \/ e = HTTPError ->
  get_skyview hi_pos_icrs (opt_view l) survey w = (Raise e, w1)
  \/ (e = ValueError
      /\ exists o w0,
          get_skyview hi_pos_icrs (opt_view l) survey w = (Ok (Some o), w0)
          /\ make_overlay source src_basename cube_params (patch l) (Some o) C suffix survey w0
             = (Raise ValueError, w1)).
Proof.
  intros Hbody He.
  apply bind_inv in Hbody as [(overlay_image & w2 & H1 & Hbody)|(e' & H1 & Hr)];
    [|left; by injection Hr as ->].
  right. apply bind_inv in Hbody as [([] & w3 & H2 & Hbody)|(e' & H2 & Hr)].
  - exfalso. apply bind_inv in Hbody as [(s & w4 & H3 & Hbody)|(e' & H3 & Hr)].
    + destruct (s =? survey)%string; [destruct overlay_image|];
        unfold ret, raise in Hbody; try discriminate Hbody;
        injection Hbody as <- <-; destruct He; discriminate.
    + injection Hr as ->. unfold surveys_head in H3.
      destruct (surveys w3); [|discriminate].
      injection H3 as <- <-. destruct He; discriminate.
  - injection Hr as ->.
    destruct (make_overlay_raises _ _ _ _ _ _ H2) as [->|[->|(-> & [o ->] & _)]];
      try (destruct He; discriminate).
    split; [done|]. by exists o, w2.
Qed.




Global Instance frozen_StepRel hm : StepRel (frozen source src_basename hm).
Proof.
  split.
  - intros w _. reflexivity.
  - intros w1 w2 w3 H12 H23 Hm. rewrite H23; [by apply H12|]. by rewrite (H12 Hm).
  - intros w w' (Hf & _) _. exact Hf.
Qed.

(** When the renderer refuses the ladder, no overlay is written. *)
Lemma make_overlay_frozen hm e p opt survey :
  contour_check (data hm) (contour_ladder C) = Raise e ->
  preserves (frozen source src_basename hm)
    (make_overlay source src_basename cube_params p opt C suffix survey).
Proof.
  intros Hfail w r w' Hrun Hm. unfold make_overlay in Hrun. unfold_prims. simpl in Hrun.
  repeat exec_step Hrun; try discriminate Hrun; try congruence;
    injection Hrun as <- <-; reflexivity.
Qed.






End Pass.



(** ** A survey that fails *)

(** C6 (as the code behaves). A survey of which SkyView holds no image at
    the position ends the whole run: [get_skyview] returns [None],
    [make_overlay] fails on it with a [TypeError], which no [except] clause
    of the loop catches, so the survey listed next is never tried and no
    figure is drawn. A DECaLS query that ends in an HTTP error ends the run
    in the same way, in [make_color_im]. *)
Theorem empty_answer_aborts_the_run :
  (run net_dss2_empty (world1 ["DSS2 Blue"; "WISE 3.4"])).1 = Raise TypeError
  /\ savefigs (run net_dss2_empty (world1 ["DSS2 Blue"; "WISE 3.4"])).2 = []
  /\ (run net_sky (world1 ["decals"; "DSS2 Blue"])).1 = Raise TypeError
  /\ savefigs (run net_sky (world1 ["decals"; "DSS2 Blue"])).2 = [].
Proof. repeat split; vm_compute; reflexivity. Qed.

(** ** The handles of the figure steps *)

(** C9 (as the code behaves). After [make_snr] has drawn its figure the
    handle of the significance product is still open, after [make_mom1] the
    handle of the intensity product, and after [make_color_im] the handle
    of the intensity product: each opens a product that it never closes. *)
Theorem figure_steps_leave_handles_open :
  handles (@make_snr net_sky source1 base cube1 (mkPatch 1 1) (head "mom0") (Num 40) "png"
             (world1 [])).2
  = ["run/J_cubelets/J_1_snr.fits"]
  /\ handles (@make_mom1 net_sky source1 base cube1 (mkPatch 1 1) (head "mom0") (Num 40)
                default_opt_view "png" 2 (world1 [])).2
     = ["run/J_cubelets/J_1_mom0.fits"]
  /\ handles (@make_color_im net_sky source1 base cube1 (mkPatch 1 1) (Some [[(1, 2, 3)%N]])
                (Some (head "ps1")) (Num 40) "png" "panstarrs" (world1 [])).2
     = ["run/J_cubelets/J_1_mom0.fits"].
Proof. repeat split; vm_compute; reflexivity. Qed.

(** ** Paths of figures and paths of products *)

Lemma append_inj_l (s a b : string) : s +:+ a = s +:+ b -> a = b.
Proof. induction s as [|c s IH]; simpl; [done|]. intros [= Heq]. by apply IH. Qed.

Lemma replace_cubelets_clash (b X Y : string) :
  str_replace "cubelets" "figures" b +:+ X = b +:+ Y -> X = Y.
Proof.
  unfold str_replace. induction b as [|c b IH]; [done|].
  cbn [replace_go]. destruct (String.prefix "cubelets" (String c b)) eqn:Hp.
  - cbn [String.prefix] in Hp.
    destruct (Ascii.ascii_dec _ c) as [<-|]; [|discriminate].
    simpl. intros [=].
  - simpl. intros [= Heq]. by apply IH.
Qed.

Lemma figure_is_product (b : string) (s : Source) (tail sfx ptail : string) :
  figure_path b s tail sfx = product_path b s ptail ->
  tail +:+ "." +:+ sfx = ptail.
Proof.
  unfold figure_path, product_path. intros Heq.
  apply replace_cubelets_clash in Heq.
  apply (append_inj_l "_") in Heq. by apply append_inj_l in Heq.
Qed.

Lemma figure_path_tail (b : string) (s : Source) (t1 t2 sfx : string) :
  figure_path b s t1 sfx = figure_path b s t2 sfx ->
  t1 +:+ "." +:+ sfx = t2 +:+ "." +:+ sfx.
Proof.
  unfold figure_path. intros Heq.
  apply append_inj_l in Heq. apply (append_inj_l "_") in Heq. by apply append_inj_l in Heq.
Qed.

Section Clash.
Context `{Capabilities}.

(** A figure drawn at the path of an overlay was drawn with the ladder, which
    the renderer took. *)
Lemma drawn_on_overlay_path source src_basename suffix C survey f :
  drawn source src_basename suffix C (overlay_path src_basename source suffix survey, f) ->
  not_increasing (contour_ladder C) = false.
Proof.
  unfold overlay_path. intros Hd. inversion Hd; subst; try done;
    match goal with
    | Hc : figure_path _ _ _ _ = figure_path _ _ _ _ |- _ =>
        apply figure_path_tail in Hc; simpl in Hc; discriminate Hc
    end.
Qed.

Lemma drawn_on_mom1_product source src_basename suffix C p f :
  drawn source src_basename suffix C (p, f) ->
  p = product_path src_basename source "_mom1.fits" ->
  p = figure_path src_basename source "_mom1" suffix.
Proof.
  intros Hd Hp. inversion Hd; subst; try reflexivity;
    match goal with
    | Hc : figure_path _ _ _ _ = product_path _ _ _ |- _ =>
        apply figure_is_product in Hc; simpl in Hc; discriminate Hc
    end.
Qed.

Lemma drawn_on_pv_product source src_basename suffix C p f :
  drawn source src_basename suffix C (p, f) ->
  p = product_path src_basename source "_pv.fits" ->
  p = figure_path src_basename source "_pv" suffix.
Proof.
  intros Hd Hp. inversion Hd; subst; try reflexivity;
    match goal with
    | Hc : figure_path _ _ _ _ = product_path _ _ _ |- _ =>
        apply figure_is_product in Hc; simpl in Hc; discriminate Hc
    end.
Qed.

End Clash.

(** ** Running a step again *)

Section Rerun.
Context `{Capabilities}.
Variables (source : Source) (src_basename suffix : string) (C : value).

Abbreviation behaves := (behaved source src_basename suffix C).

Lemma blind_growing {A} P (m : M A) : fs_blind m -> growing P m.
Proof.
  intros Hb w r w' Hrun. destruct (Hb _ _ _ w Hrun eq_refl) as (Hf & Hs & _).
  by apply grows_same.
Qed.

Lemma blind_behaves {A} (m : M A) : fs_blind m -> behaves m.
Proof.
  intros Hb. split; [by apply blind_growing|].
  intros u a u' v Hrun (Hs & _) _. destruct (Hb _ _ _ v Hrun Hs) as (_ & _ & Hv). exact Hv.
Qed.

Lemma rerun_from_later u u1 v v1 :
  rerun_from source src_basename suffix C u v ->
  fs u ⊆ fs u1 -> fs v1 = fs v -> surveys v1 = surveys u1 ->
  rerun_from source src_basename suffix C u1 v1.
Proof.
  intros (_ & [[hs Hs] [hm Hm]] & [N1 N2] & Honly) Hsub Hf Hsv. split; [done|]. split.
  { split; eexists; eapply lookup_weaken; eauto. }
  assert (Hnone : forall p, fs u1 !! p = None -> fs u !! p = None).
  { intros p Hp. destruct (fs u !! p) eqn:E; [|done].
    eapply lookup_weaken in E; [|exact Hsub]. congruence. }
  split.
  - unfold no_new_product. rewrite Hf. split; intros Hu1 Hv.
    + apply N1; [by apply Hnone|done].
    + apply N2; [by apply Hnone|done].
  - intros p c Hp Hc. rewrite Hf in Hc. apply (Honly p c); [by apply Hnone|done].
Qed.

Lemma behaves_bind {A B} (m : M A) (f : A -> M B) :
  behaves m -> (forall a, behaves (f a)) -> behaves (bind m f).
Proof.
  intros [Gm Rm] Hf. split.
  - apply preserves_bind; [typeclasses eauto|exact Gm|]. intros a. apply Hf.
  - intros u b u' v Hrun Hfrom Hsub.
    apply bind_ok_inv in Hrun as (a & u1 & H1 & H2).
    destruct (Gm _ _ _ H1) as [Hsub1 _].
    destruct (proj1 (Hf a) _ _ _ H2) as [Hsub2 _].
    destruct (Rm _ _ _ v H1 Hfrom) as (v1 & Hv1 & Ef1 & Es1 & Esv1); [by etrans|].
    destruct (proj2 (Hf a) _ _ _ v1 H2) as (v' & Hv' & Ef2 & Es2 & Esv2).
    + by eapply rerun_from_later.
    + by rewrite Ef1.
    + exists v'. unfold bind. rewrite Hv1. repeat split; congruence.
Qed.

Lemma behaves_bind_with {A B} (Phi : A -> Prop) (m : M A) (f : A -> M B) :
  (forall w a w', m w = (Ok a, w') -> Phi a) ->
  behaves m -> (forall a, Phi a -> behaves (f a)) -> behaves (bind m f).
Proof.
  intros HPhi [Gm Rm] Hf. split.
  - apply (preserves_bind_with _ Phi); [exact HPhi|exact Gm|]. intros a Ha. by apply Hf.
  - intros u b u' v Hrun Hfrom Hsub.
    apply bind_ok_inv in Hrun as (a & u1 & H1 & H2).
    pose proof (HPhi _ _ _ H1) as Ha.
    destruct (Gm _ _ _ H1) as [Hsub1 _].
    destruct (proj1 (Hf a Ha) _ _ _ H2) as [Hsub2 _].
    destruct (Rm _ _ _ v H1 Hfrom) as (v1 & Hv1 & Ef1 & Es1 & Esv1); [by etrans|].
    destruct (proj2 (Hf a Ha) _ _ _ v1 H2) as (v' & Hv' & Ef2 & Es2 & Esv2).
    + by eapply rerun_from_later.
    + by rewrite Ef1.
    + exists v'. unfold bind. rewrite Hv1. repeat split; congruence.
Qed.

Ltac skip_figure Hv :=
  eexists; split;
  [ unfold_prims; simpl; rewrite Hv; simpl; reflexivity
  | simpl; repeat split; congruence ].

Lemma make_overlay_behaves cube_params p opt survey :
  behaves (make_overlay source src_basename cube_params p opt C suffix survey).
Proof.
  split; [apply figure_step_growing, make_overlay_drawn|].
  intros u a u' v Hrun (Hsv & [[hs Hs] [hm Hm]] & _ & _) Hsub.
  unfold make_overlay in Hrun. exec Hrun; try discriminate; try congruence;
    simpl in Hsub; unfold make_overlay.
  - eapply lookup_weaken in Hfs; [|exact Hsub]. skip_figure Hfs.
  - eapply lookup_weaken in Hfs; [|exact Hsub]. skip_figure Hfs.
  - pose proof (lookup_weaken _ _ _ _ (lookup_insert_eq _ _ _) Hsub) as Hv. skip_figure Hv.
Qed.


Lemma make_mom0_behaves cube_params p opt_head :
  behaves (make_mom0 source src_basename cube_params p opt_head C suffix).
Proof.
  split; [apply figure_step_growing, make_mom0_drawn|].
  intros u a u' v Hrun (Hsv & [[hs Hs] [hm Hm]] & _ & _) Hsub.
  unfold make_mom0 in Hrun. exec Hrun; try discriminate; try congruence;
    simpl in Hsub; unfold make_mom0.
  - eapply lookup_weaken in Hfs; [|exact Hsub]. skip_figure Hfs.
  - eapply lookup_weaken in Hfs; [|exact Hsub]. skip_figure Hfs.
  - pose proof (lookup_weaken _ _ _ _ (lookup_insert_eq _ _ _) Hsub) as Hv. skip_figure Hv.
Qed.

Lemma make_snr_behaves cube_params p opt_head :
  behaves (make_snr source src_basename cube_params p opt_head C suffix).
Proof.
  split; [apply figure_step_growing, make_snr_drawn|].
  intros u a u' v Hrun (Hsv & [[hs Hs] [hm Hm]] & _ & _) Hsub.
  unfold make_snr in Hrun. exec Hrun; try discriminate; try congruence;
    simpl in Hsub; unfold make_snr.
  - eapply lookup_weaken in Hfs; [|exact Hsub]. skip_figure Hfs.
  - eapply lookup_weaken in Hfs; [|exact Hsub]. skip_figure Hfs.
  - pose proof (lookup_weaken _ _ _ _ (lookup_insert_eq _ _ _) Hsub) as Hv. skip_figure Hv.
Qed.

Lemma make_color_im_behaves cube_params p im head survey :
  behaves (make_color_im source src_basename cube_params p im head C suffix survey).
Proof.
  split; [apply figure_step_growing, make_color_im_drawn|].
  intros u a u' v Hrun (Hsv & [[hs Hs] [hm Hm]] & _ & _) Hsub.
  unfold make_color_im in Hrun. exec Hrun; try discriminate; try congruence;
    simpl in Hsub; unfold make_color_im.
  - eapply lookup_weaken in Hfs; [|exact Hsub]. skip_figure Hfs.
  - eapply lookup_weaken in Hfs; [|exact Hsub]. skip_figure Hfs.
  - pose proof (lookup_weaken _ _ _ _ (lookup_insert_eq _ _ _) Hsub) as Hv. skip_figure Hv.
Qed.

Ltac return_again Hout Hprod :=
  eexists; split;
  [ unfold_prims; simpl; rewrite Hout; simpl; rewrite Hprod; simpl; reflexivity
  | simpl; repeat split; congruence ].

Lemma make_pv_behaves cube_params :
  behaves (make_pv source src_basename cube_params suffix).
Proof.
  split; [apply figure_step_growing, make_pv_drawn|].
  intros u a u' v Hrun (Hsv & _ & [_ Hno] & _) Hsub.
  unfold make_pv in Hrun. exec Hrun; try discriminate; try congruence;
    simpl in Hsub; unfold make_pv.
  - eapply lookup_weaken in Hfs; [|exact Hsub]. skip_figure Hfs.
  - eapply lookup_weaken in Hfs; [|exact Hsub]. skip_figure Hfs.
  - pose proof (lookup_weaken _ _ _ _ (lookup_insert_eq _ _ _) Hsub) as Hv. skip_figure Hv.
  - destruct (fs v !! figure_path src_basename source "_pv" suffix) as [c|] eqn:Hv.
    + skip_figure Hv.
    + pose proof (Hno eq_refl eq_refl) as Hp. return_again Hv Hp.
Qed.

Lemma make_mom1_behaves cube_params p opt_head view sofia :
  behaves (make_mom1 source src_basename cube_params p opt_head C view suffix sofia).
Proof.
  split; [apply figure_step_growing, make_mom1_drawn|].
  intros u a u' v Hrun (Hsv & [[hs Hs] [hm Hm]] & [Hno _] & _) Hsub.
  unfold make_mom1 in Hrun. unfold_prims. simpl in Hrun.
  repeat exec_step Hrun.
  all: repeat match type of Hrun with
         | context [match mom1_velocities ?a ?b ?c ?w with _ => _ end] =>
             let E := fresh "Hvel" in
             destruct (mom1_velocities a b c w) as [[[[? ?] ?]|?] ?] eqn:E;
             apply mom1_velocities_pure in E; subst; simpl in Hrun
         end.
  all: repeat exec_step Hrun.
  all: try discriminate Hrun; try congruence.
  all: injection Hrun as <- <-; simpl in Hsub; unfold make_mom1.
  - eapply lookup_weaken in Hfs; [|exact Hsub]. skip_figure Hfs.
  - eapply lookup_weaken in Hfs; [|exact Hsub]. skip_figure Hfs.
  - pose proof (lookup_weaken _ _ _ _ (lookup_insert_eq _ _ _) Hsub) as Hv. skip_figure Hv.
  - destruct (fs v !! figure_path src_basename source "_mom1" suffix) as [c|] eqn:Hv.
    + skip_figure Hv.
    + pose proof (Hno eq_refl eq_refl) as Hp. return_again Hv Hp.
Qed.


Ltac behave_leaf :=
  lazymatch goal with
  | |- behaved _ _ _ _ ?m =>
      lazymatch head_of m with
      | @make_overlay => apply make_overlay_behaves
      | @make_mom0 => apply make_mom0_behaves
      | @make_snr => apply make_snr_behaves
      | @make_mom1 => apply make_mom1_behaves
      | @make_color_im => apply make_color_im_behaves
      | @make_pv => apply make_pv_behaves
      | @get_skyview => apply blind_behaves, get_skyview_blind
      | @get_panstarrs => apply blind_behaves, get_panstarrs_blind
      | @get_decals => apply blind_behaves, get_decals_blind
      end
  end.

Ltac behave_step :=
  first
    [ progress cbv zeta
    | behave_leaf
    | apply behaves_bind; [|intros ?]
    | match goal with
      | |- behaved _ _ _ _ (match ?x with _ => _ end) => destruct x
      end
    | solve [apply blind_behaves; blind] ].

Ltac behave := repeat behave_step.

Variables (cube_params : CubeParams) (hi_pos_icrs : SkyCoord).

Lemma hst_block_behaves l :
  behaves (hst_block source src_basename cube_params C suffix l).
Proof. unfold hst_block. behave. Qed.

Lemma panstarrs_block_behaves l :
  behaves (panstarrs_block source src_basename cube_params hi_pos_icrs C suffix l).
Proof. unfold panstarrs_block. behave. Qed.

Lemma decals_block_behaves l :
  behaves (decals_block source src_basename cube_params hi_pos_icrs C suffix l).
Proof. unfold decals_block. behave. Qed.

Lemma grid_block_behaves l :
  behaves (grid_block source src_basename cube_params C suffix l).
Proof. unfold grid_block. behave. Qed.


(** The renderer refused the ladder: run again, the overlay step ends in
    the same way, since no figure with the ladder was drawn meanwhile. *)
Lemma make_overlay_again p o survey u u' v :
  make_overlay source src_basename cube_params p (Some o) C suffix survey u
  = (Raise ValueError, u') ->
  rerun_from source src_basename suffix C u v -> fs u ⊆ fs v ->
  exists v',
    make_overlay source src_basename cube_params p (Some o) C suffix survey v
    = (Raise ValueError, v')
    /\ fs v' = fs v /\ savefigs v' = savefigs v /\ surveys v' = surveys v.
Proof.
  intros Hrun (Hsv & _ & _ & Honly) Hsub.
  destruct (make_overlay_raises _ _ _ _ _ _ _ _ _ _ _ Hrun)
    as [[=]|[[=]|(_ & _ & Hnone & hm & Hm & Hcheck)]].
  assert (Hv : fs v !! overlay_path src_basename source suffix survey = None).
  { destruct (fs v !! overlay_path _ _ _ _) as [c|] eqn:E; [|done].
    destruct (Honly _ _ Hnone E) as (f & -> & Hd).
    apply drawn_on_overlay_path in Hd.
    apply contour_check_raises in Hcheck as [[[=] _]|(_ & _ & Hinc)]. congruence. }
  pose proof (lookup_weaken _ _ _ _ Hm Hsub) as Hmv.
  eexists. split.
  - unfold make_overlay. unfold overlay_path in Hv. unfold_prims. simpl.
    rewrite Hv. simpl. rewrite Hmv. simpl. rewrite Hcheck. simpl. reflexivity.
  - done.
Qed.

Lemma skyview_iteration_behaves survey l :
  behaves (skyview_iteration source src_basename cube_params hi_pos_icrs C suffix survey l).
Proof.
  split; [apply figure_step_growing, skyview_iteration_step|].
  intros u a u' v Hrun Hfrom Hsub.
  pose proof (skyview_iteration_step _ _ _ _ C _ _ _ _ _ _ Hrun) as [[Hgrow _] _].
  unfold skyview_iteration in *.
  match type of Hrun with try_catch ?b ?h _ = _ => set (body := b) in *; set (handler := h) in * end.
  assert (Hbody : behaves body) by (unfold body; behave).
  apply try_catch_inv in Hrun as [(a' & H1 & [= ->])|[(e & u1 & k & H1 & Hk & Hh)|(e & _ & _ & [=])]].
  - destruct (proj2 Hbody _ _ _ v H1 Hfrom Hsub) as (v' & Hv & Hrest).
    exists v'. split; [|exact Hrest]. unfold try_catch. by rewrite Hv.
  - assert (He : e = ValueError \/ e = HTTPError)
      by (unfold handler in Hk; destruct e; try discriminate Hk; eauto).
    destruct (skyview_caught _ _ _ _ _ _ _ _ _ _ _ H1 He) as [Hq|(-> & o & u0 & Hq & Hov)].
    + destruct (get_skyview_blind _ _ _ _ _ _ v Hq (proj1 Hfrom))
        as (Ef & Es & v1 & Hv1 & Ef1 & Es1 & Esv1).
      assert (Hbv : body v = (Raise e, v1)) by (unfold body, bind; by rewrite Hv1).
      unfold try_catch. rewrite Hbv, Hk.
      unfold handler in Hk. destruct He as [-> | ->]; injection Hk as <-;
        unfold bind, print, ret in *; injection Hh as <- <-;
        (eexists; split; [reflexivity|]; simpl; repeat split; congruence).
    + destruct (get_skyview_blind _ _ _ _ _ _ v Hq (proj1 Hfrom))
        as (Ef & Es & v1 & Hv1 & Ef1 & Es1 & Esv1).
      assert (K1 : surveys u1 = surveys u0)
        by (by eapply (figure_step_keeps _ _ (make_overlay_drawn _ _ _ _ _ C _ _))).
      injection Hk as <-. unfold bind, print, ret in Hh. injection Hh as <- <-.
      simpl in Hsub, Hgrow.
      assert (F1 : fs u1 = fs u0).
      { destruct (make_overlay_raises _ _ _ _ _ _ _ _ _ _ _ Hov)
          as [[=]|[[=]|(_ & _ & Hnone & hm & Hm & Hcheck)]].
        pose proof make_overlay_frozen as Hfz. unfold preserves, frozen in Hfz.
        eapply Hfz; [exact Hcheck|exact Hov|exact Hm]. }
      destruct (make_overlay_again _ _ _ _ _ v1 Hov) as (v2 & Hv2 & Ef2 & Es2 & Esv2).
      * eapply rerun_from_later; [exact Hfrom|by rewrite Ef|exact Ef1|exact Esv1].
      * rewrite Ef1, <- F1. exact Hsub.
      * assert (Hbv : body v = (Raise ValueError, v2))
          by (unfold body, bind; rewrite Hv1; by rewrite Hv2).
        unfold try_catch. rewrite Hbv. simpl.
        eexists; split; [reflexivity|]. simpl. repeat split; congruence.
Qed.

Lemma skyview_loop_behaves todo : forall l,
  behaves (skyview_loop source src_basename cube_params hi_pos_icrs C suffix todo l).
Proof.
  induction todo as [|survey todo IH]; intros l; simpl.
  - apply blind_behaves. blind.
  - apply behaves_bind; [apply skyview_iteration_behaves|]. intros l1. apply IH.
Qed.

Lemma survey_blocks_behaves l :
  behaves (survey_blocks source src_basename cube_params hi_pos_icrs C suffix l).
Proof.
  unfold survey_blocks.
  apply behaves_bind; [apply hst_block_behaves|intros ?].
  apply behaves_bind; [apply panstarrs_block_behaves|intros ?].
  apply behaves_bind; [apply decals_block_behaves|intros ?].
  unfold skyview_block. apply behaves_bind; [apply blind_behaves; blind|intros ?].
  apply skyview_loop_behaves.
Qed.

End Rerun.

Section RerunMain.
Context `{Capabilities}.

Lemma behaved_set_position {A} source pos src_basename suffix C (m : M A) :
  behaved (set_position source pos) src_basename suffix C m ->
  behaved source src_basename suffix C m.
Proof.
  intros [Hg Hr]. split.
  - eapply preserves_impl; [|exact Hg]. intros w w'. apply grows_weaken.
    intros pf. apply drawn_set_position.
  - intros u a u' v Hrun (Hsv & Hread & Hno & Honly) Hsub.
    apply (Hr u a u' v Hrun); [|exact Hsub].
    split; [exact Hsv|]. split; [exact Hread|]. split; [exact Hno|].
    intros p c Hp Hc. destruct (Honly p c Hp Hc) as (f & -> & Hd).
    exists f. split; [done|]. by apply drawn_at_position.
Qed.

Lemma main_images_behaves source src_basename cube_params view suffix C :
  behaved source src_basename suffix C
    (main_images source src_basename cube_params view suffix C).
Proof.
  unfold main_images.
  apply behaves_bind; [destruct cube_params; apply blind_behaves; blind|intros cp].
  cbv zeta.
  apply behaves_bind; [destruct (_ || _); apply blind_behaves; blind|intros _].
  apply behaves_bind; [eapply behaved_set_position, survey_blocks_behaves|intros l].
  apply behaves_bind; [eapply behaved_set_position, grid_block_behaves|intros _].
  apply blind_behaves. blind.
Qed.

Lemma main_tail_behaves source src_basename cube_params view suffix C :
  behaved source src_basename suffix C
    (r' <- main_images source src_basename cube_params view suffix C ;;
     let '(source', cp, l) := r' in
     make_pv source' src_basename cp suffix ;;
     print (MsgDone (id source') (name source')) ;;
     ret (Some true)).
Proof.
  apply (behaves_bind_with _ _ _ _
           (fun r' : Source * CubeParams * Locals =>
              exists pos, r'.1.1 = set_position source pos)).
  - intros w [[s cp] l] w' Hrun. by apply main_images_source in Hrun.
  - apply main_images_behaves.
  - intros [[s cp] l] [pos Hs]. simpl in Hs. subst s.
    apply behaves_bind; [eapply behaved_set_position, make_pv_behaves|intros _].
    apply blind_behaves. blind.
Qed.

End RerunMain.

Section RunTwice.
Context `{Capabilities}.

Lemma base_contour_step_again source src_basename range u r u' v :
  base_contour_step source src_basename range u = (r, u') ->
  fs v !! product_path src_basename source "_snr.fits"
  = fs u !! product_path src_basename source "_snr.fits" ->
  fs v !! product_path src_basename source "_mom0.fits"
  = fs u !! product_path src_basename source "_mom0.fits" ->
  surveys v = surveys u ->
  exists v', base_contour_step source src_basename range v = (r, v')
             /\ fs v' = fs v /\ savefigs v' = savefigs v /\ surveys v' = surveys u'.
Proof.
  unfold base_contour_step. unfold_prims. simpl. intros Hrun Hs Hm Hsv.
  rewrite Hs.
  destruct (fs u !! product_path src_basename source "_snr.fits") as [[hs|?]|];
    simpl in *; rewrite ?Hm;
    try (destruct (fs u !! product_path src_basename source "_mom0.fits") as [[hm|?]|];
         simpl in *);
    try (destruct (HIlowest_of (data hm) (data hs) range) as [c|e]; simpl in *;
         try case_bool_decide);
    injection Hrun as <- <-; (eexists; split; [reflexivity|]; simpl; repeat split; congruence).
Qed.

Lemma cube_params_blind source src_basename sofia beam :
  fs_blind
    (if (sofia =? 2)%Z
     then cp <- lift (get_info (product_path src_basename source "_cube.fits") beam) ;;
          ret (Some cp)
     else if (sofia =? 1)%Z
          then cp <- lift (get_info (product_path src_basename source ".fits") beam) ;;
               ret (Some cp)
          else ret None).
Proof. destruct (sofia =? 2)%Z; [|destruct (sofia =? 1)%Z]; blind. Qed.

(** C8. A run of [main] leaves every file that was there as it was, writes
    figures only to paths that were free, so that a figure file that exists
    is never regenerated or overwritten; and when [main] is run a second
    time for the same source and survey list, with the files as the first
    run left them, it returns the same and writes no figure. *)
Theorem rerun_writes_nothing (source : Source) (src_basename : string)
    (view : Quantity) (suffix : string) (sofia : Z) (beam : option Beam)
    (range : value * value) (w w1 : world) (r : option bool) :
  main source src_basename view suffix sofia beam range w = (Ok r, w1) ->
  fs w ⊆ fs w1
  /\ (exists new, savefigs w1 = savefigs w ++ new
                  /\ Forall (fun pf => fs w !! pf.1 = None) new)
  /\ exists w2,
      main source src_basename view suffix sofia beam range (with_surveys (surveys w) w1)
      = (Ok r, w2)
      /\ fs w2 = fs w1 /\ savefigs w2 = savefigs w1.
Proof.
  intros Hrun.
  pose proof (main_grows _ _ _ _ _ _ _ _ _ _ Hrun) as [Hsub (new & Hnew & Hall & Hfree & Hkeys)].
  split; [exact Hsub|]. split; [by exists new|].
  set (v := with_surveys (surveys w) w1).
  unfold main in Hrun.
  apply bind_ok_inv in Hrun as ([] & u0 & H0 & Hrun).
  apply bind_ok_inv in Hrun as (cube_params & u1 & H1 & Hrun).
  apply bind_ok_inv in Hrun as (r1 & u2 & H2 & Hrun).
  assert (Q0 : quiet w u0) by (by eapply (preserves_print quiet)).
  destruct (fs_blind_print _ _ _ _ v H0) as (_ & _ & v0 & Hv0 & Fv0 & Sv0 & Lv0); [done|].
  destruct (cube_params_blind _ _ _ _ _ _ _ v0 H1) as (F1 & S1 & v1 & Hv1 & Fv1 & Sv1 & Lv1);
    [done|].
  assert (Q2 : quiet u1 u2) by (by eapply (base_contour_step_step quiet)).
  destruct Q0 as (F0 & S0 & L0). destruct Q2 as (F2 & S2 & L2).
  assert (Fu2 : fs u2 = fs w) by congruence.
  assert (Fv : fs v1 = fs w1) by (rewrite Fv1, Fv0; reflexivity).
  assert (Sv : savefigs v1 = savefigs w1) by (rewrite Sv1, Sv0; reflexivity).
  assert (Hagain : exists v2, base_contour_step source src_basename range v1 = (Ok r1, v2)
                     /\ fs v2 = fs w1 /\ savefigs v2 = savefigs w1
                     /\ surveys v2 = surveys u2).
  { destruct r1 as [C|].
    - pose proof (base_contour_step_inv _ _ _ _ _ _ H2) as (hs & hm & Hs & Hm & _).
      rewrite F1, F0 in Hs, Hm.
      destruct (base_contour_step_again _ _ _ _ _ _ v1 H2) as (v2 & Hv2 & E1 & E2 & E3).
      + rewrite Fv, F1, F0, Hs. by eapply lookup_weaken.
      + rewrite Fv, F1, F0, Hm. by eapply lookup_weaken.
      + done.
      + exists v2. repeat split; try done; congruence.
    - injection Hrun as <- <-.
      destruct (base_contour_step_again _ _ _ _ _ _ v1 H2) as (v2 & Hv2 & E1 & E2 & E3).
      + by rewrite Fv, F2.
      + by rewrite Fv, F2.
      + done.
      + exists v2. repeat split; try done; congruence. }
  destruct Hagain as (v2 & Hv2 & E1 & E2 & E3).
  destruct r1 as [C|].
  - pose proof (base_contour_step_inv _ _ _ _ _ _ H2) as (hs & hm & Hs & Hm & HC).
    destruct (proj2 (main_tail_behaves source src_basename cube_params view suffix C)
                _ _ _ v2 Hrun) as (w2 & Hw2 & G1 & G2 & G3).
    + split; [done|]. split; [split; eexists; rewrite F2; eauto|]. split.
      * unfold no_new_product. rewrite E1, Fu2. split.
        -- intros Hnone Hout.
           destruct (fs w1 !! product_path src_basename source "_mom1.fits") as [c|] eqn:Hc;
             [exfalso|done].
           destruct (Hkeys _ _ Hnone Hc) as (f & -> & Hin).
           rewrite Forall_forall in Hall. destruct (Hall _ Hin) as (? & ? & ? & _ & _ & _ & Hd).
           apply drawn_on_mom1_product in Hd; [|done]. congruence.
        -- intros Hnone Hout.
           destruct (fs w1 !! product_path src_basename source "_pv.fits") as [c|] eqn:Hc;
             [exfalso|done].
           destruct (Hkeys _ _ Hnone Hc) as (f & -> & Hin).
           rewrite Forall_forall in Hall. destruct (Hall _ Hin) as (? & ? & ? & _ & _ & _ & Hd).
           apply drawn_on_pv_product in Hd; [|done]. congruence.
      * intros p c Hp Hc. rewrite Fu2 in Hp. rewrite E1 in Hc.
        destruct (Hkeys _ _ Hp Hc) as (f & -> & Hin). exists f. split; [done|].
        rewrite Forall_forall in Hall.
        destruct (Hall _ Hin) as (hs' & hm' & C' & Hs' & Hm' & HC' & Hd).
        rewrite F1, F0 in Hs, Hm. assert (C' = C) as -> by congruence. exact Hd.
    + by rewrite E1.
    + exists w2. split; [|split; congruence].
      unfold main. eapply bind_ok_intro; [exact Hv0|].
      eapply bind_ok_intro; [exact Hv1|].
      eapply bind_ok_intro; [exact Hv2|]. exact Hw2.
  - injection Hrun as <- <-. exists v2. split; [|split; congruence].
    unfold main. eapply bind_ok_intro; [exact Hv0|].
    eapply bind_ok_intro; [exact Hv1|].
    eapply bind_ok_intro; [exact Hv2|]. reflexivity.
Qed.

End RunTwice.

Lemma rerun_writes_nothing_witness :
  let c := net_all in
  let w := world1 ["hst"; "panstarrs"; "decals"; "DSS2 Blue"] in
  let w1 := (run c w).2 in
  fs w ⊆ fs w1
  /\ (exists new, savefigs w1 = savefigs w ++ new
                  /\ Forall (fun pf => fs w !! pf.1 = None) new)
  /\ exists w2,
      run c (with_surveys (surveys w) w1) = (Ok (Some true), w2)
      /\ fs w2 = fs w1 /\ savefigs w2 = savefigs w1.
Proof.
  intros c w w1.
  apply (@rerun_writes_nothing c source1 base default_opt_view "png" 2 None
           default_snr_range w w1 (Some true)).
  vm_compute. reflexivity.
Defined.

(** * Further properties of the code *)

(** ** The field of view covers the source *)

Section Extent.
Context `{Capabilities}.


Lemma qmax_le (a b h : Q) : (qmax a b <= h)%Q <-> (a <= h)%Q /\ (b <= h)%Q.
Proof. destruct (qmax_spec a b) as [[? ->]|[? ->]]; split; intros; try split; lra. Qed.

Lemma np_max_sizes (source : Source) (cube_params : CubeParams) :
  (np_max (Xsize source cube_params ++ Ysize source cube_params)
   == angular_extent source cube_params)%Q.
Proof.
  unfold angular_extent, Xsize, Ysize, np_max. cbn [app fold_left].
  fold (to_arcmin cube_params (x_max source - x source)).
  fold (to_arcmin cube_params (x source - x_min source)).
  fold (to_arcmin cube_params (y_max source - y source)).
  fold (to_arcmin cube_params (y source - y_min source)).
  generalize (to_arcmin cube_params (x_max source - x source))
             (to_arcmin cube_params (x source - x_min source))
             (to_arcmin cube_params (y_max source - y source))
             (to_arcmin cube_params (y source - y_min source)).
  intros a b c d.
  repeat match goal with
         | |- context [qmax ?u ?v] =>
             is_var u; is_var v; destruct (qmax_spec u v) as [[? ->]|[? ->]]
         end; lra.
Qed.

Lemma any_gt_sizes (source : Source) (cube_params : CubeParams) (h : Q) :
  any_gt (Xsize source cube_params) h || any_gt (Ysize source cube_params) h = true
  <-> (h < angular_extent source cube_params)%Q.
Proof.
  unfold angular_extent, Xsize, Ysize, any_gt. cbn [existsb]. rewrite !orb_false_r.
  fold (to_arcmin cube_params (x_max source - x source)).
  fold (to_arcmin cube_params (x source - x_min source)).
  fold (to_arcmin cube_params (y_max source - y source)).
  fold (to_arcmin cube_params (y source - y_min source)).
  generalize (to_arcmin cube_params (x_max source - x source))
             (to_arcmin cube_params (x source - x_min source))
             (to_arcmin cube_params (y_max source - y source))
             (to_arcmin cube_params (y source - y_min source)).
  intros a b c d.
  assert (Hle : (qmax (qmax a b) (qmax c d) <= h)%Q
                <-> (a <= h /\ b <= h /\ c <= h /\ d <= h)%Q).
  { rewrite !qmax_le. tauto. }
  destruct (Qltb_spec h a) as [[Ha ->]|[Ha ->]];
    destruct (Qltb_spec h b) as [[Hb ->]|[Hb ->]];
    destruct (Qltb_spec h c) as [[Hc ->]|[Hc ->]];
    destruct (Qltb_spec h d) as [[Hd ->]|[Hd ->]]; simpl;
    (split; [intros Hany; try discriminate Hany;
                    apply Qnot_le_lt; intros Hn; apply Hle in Hn; lra
            | intros Hlt; try reflexivity]).
  exfalso. assert (qmax (qmax a b) (qmax c d) <= h)%Q by (apply Hle; lra). lra.
Qed.


(** X2. The field of view of the HST image is in arcsec, is never below the
    40 arcsec of the code, and is at least twice the angular extent of the
    source (which is in arcmin, hence the factor 60). *)
Theorem hst_field_of_view_covers (source : Source) (cube_params : CubeParams) :
  qunit (hst_field_of_view source cube_params) = arcsec
  /\ (40 <= qvalue (hst_field_of_view source cube_params))%Q
  /\ (2 * angular_extent source cube_params * 60
      <= qvalue (hst_field_of_view source cube_params))%Q.
Proof.
  unfold hst_field_of_view. cbv zeta.
  assert (Hh : (qvalue (to (mkQuantity 40 arcsec) arcmin) / 2 == 1 # 3)%Q) by reflexivity.
  destruct (any_gt (Xsize source cube_params) (qvalue (to (mkQuantity 40 arcsec) arcmin) / 2)
            || any_gt (Ysize source cube_params)
                 (qvalue (to (mkQuantity 40 arcsec) arcmin) / 2)) eqn:Hb.
  - apply any_gt_sizes in Hb. pose proof (np_max_sizes source cube_params) as Hmax.
    set (m := np_max _) in *. clearbody m.
    set (h := (qvalue (to (mkQuantity 40 arcsec) arcmin) / 2)%Q) in *. clearbody h.
    unfold to. cbn [qvalue qunit arcsec_per].
    assert (Hd : (m * 2 * (105 # 100) * 60 / 1 == m * 126)%Q) by field.
    split; [reflexivity|]. rewrite Hd. split; lra.
  - split; [reflexivity|]. split; [simpl; lra|]. cbn [qvalue].
    destruct (Qlt_le_dec (qvalue (to (mkQuantity 40 arcsec) arcmin) / 2)
                (angular_extent source cube_params)) as [Hlt|Hle].
    + apply any_gt_sizes in Hlt. congruence.
    + set (h := (qvalue (to (mkQuantity 40 arcsec) arcmin) / 2)%Q) in *. clearbody h. lra.
Qed.

End Extent.


(** ** Handles that are closed *)

Section Handles.
Context `{Capabilities}.

Lemma contour_check_not_os z levels e : contour_check z levels = Raise e -> e <> OSError.
Proof. intros Hc. apply contour_check_raises in Hc as [[-> _]|[-> _]]; discriminate. Qed.

Ltac handles_done :=
  simpl; rewrite ?String.eqb_refl;
  first [ reflexivity
        | by (case_bool_decide; [discriminate|reflexivity])
        | match goal with
          | Hc : contour_check _ _ = Raise _ |- _ =>
              apply contour_check_not_os in Hc; by rewrite bool_decide_eq_false_2
          end ].

(** X3. [make_overlay], [make_mom0] and [make_pv] close the product they
    opened whenever they return: the open handles are then as they were
    before the call. When an exception ends them after the product was
    opened (the renderer refuses the array or the levels, or [make_overlay]
    was handed no image), the handle of the product stays open. *)
Theorem handle_closed_on_return (source : Source) (src_basename : string)
    (cube_params : CubeParams) (patch : Patch) (C : value) (suffix : string) :
  (forall opt survey,
      closes_on_return (product_path src_basename source "_mom0.fits")
        (make_overlay source src_basename cube_params patch opt C suffix survey))
  /\ (forall opt_head,
        closes_on_return (product_path src_basename source "_mom0.fits")
          (make_mom0 source src_basename cube_params patch opt_head C suffix))
  /\ closes_on_return (product_path src_basename source "_pv.fits")
       (make_pv source src_basename cube_params suffix).
Proof.
  split; [|split].
  - intros opt survey w.
    destruct (make_overlay source src_basename cube_params patch opt C suffix survey w)
      as [r w'] eqn:Hrun.
    unfold make_overlay in Hrun. exec Hrun; handles_done.
  - intros opt_head w.
    destruct (make_mom0 source src_basename cube_params patch opt_head C suffix w)
      as [r w'] eqn:Hrun.
    unfold make_mom0 in Hrun. exec Hrun; handles_done.
  - intros w.
    destruct (make_pv source src_basename cube_params suffix w) as [r w'] eqn:Hrun.
    unfold make_pv in Hrun. exec Hrun; handles_done.
Qed.

(** X4. The base-contour step of [main] opens the two products in a [with]
    statement: whatever happens (a product is missing, the two maps differ
    in shape, the median is computed) no handle is left open, no file is
    written and the caller's list is as it was. *)
Theorem base_contour_step_closes (source : Source) (src_basename : string)
    (range : value * value) (w : world) :
  handles (base_contour_step source src_basename range w).2 = handles w
  /\ quiet w (base_contour_step source src_basename range w).2.
Proof.
  unfold base_contour_step. unfold_prims. simpl.
  destruct (fs w !! product_path src_basename source "_snr.fits") as [[hs|?]|];
    simpl; try (split; [|split; [|split]]; reflexivity).
  destruct (fs w !! product_path src_basename source "_mom0.fits") as [[hm|?]|];
    simpl; rewrite ?String.eqb_refl; try (split; [|split; [|split]]; reflexivity).
  destruct (HIlowest_of (data hm) (data hs) range) as [c|e]; simpl;
    rewrite ?String.eqb_refl; simpl; rewrite ?String.eqb_refl;
    try case_bool_decide; simpl; split; try reflexivity; split; try split; reflexivity.
Qed.

(** X5. Each of the six figure steps, when its output file is there, prints
    that the file exists and does nothing else: it opens no product, draws
    nothing and returns normally. *)
Theorem existing_figure_is_skipped (source : Source) (src_basename suffix : string) :
  figure_steps_skip source src_basename suffix.
Proof.
  unfold figure_steps_skip, skipped_when_there.
  repeat split; intros; match goal with Hs : is_Some _ |- _ => destruct Hs as [c Hc] end.
  - unfold make_overlay. unfold_prims. simpl. by rewrite Hc.
  - unfold make_mom0. unfold_prims. simpl. by rewrite Hc.
  - unfold make_snr. unfold_prims. simpl. by rewrite Hc.
  - unfold make_mom1. unfold_prims. simpl. by rewrite Hc.
  - unfold make_color_im. unfold_prims. simpl. by rewrite Hc.
  - unfold make_pv. unfold_prims. simpl. by rewrite Hc.
Qed.

(** X6. When the intensity product is missing, [make_overlay] and
    [make_mom0] print so and return with nothing changed, while
    [make_color_im], which opens the product outside any [try], and
    [make_snr], which opens it after its own [try], end in
    [FileNotFoundError] unless their figure is there. *)
Theorem missing_intensity_product (source : Source) (src_basename : string)
    (cube_params : CubeParams) (patch : Patch) (C : value) (suffix : string) (w : world) :
  fs w !! product_path src_basename source "_mom0.fits" = None ->
  (forall opt survey,
      returns_quietly (make_overlay source src_basename cube_params patch opt C suffix survey) w)
  /\ (forall opt_head,
        returns_quietly (make_mom0 source src_basename cube_params patch opt_head C suffix) w)
  /\ (forall color_im opt_head survey,
        fs w !! figure_path src_basename source ("_mom0" +:+ survey) suffix = None ->
        (make_color_im source src_basename cube_params patch color_im opt_head C suffix
           survey w).1 = Raise FileNotFoundError)
  /\ (forall opt_head hs,
        fs w !! figure_path src_basename source "_snr" suffix = None ->
        fs w !! product_path src_basename source "_snr.fits" = Some (Fits hs) ->
        (make_snr source src_basename cube_params patch opt_head C suffix w).1
        = Raise FileNotFoundError).
Proof.
  intros Hm. unfold returns_quietly, quiet. split; [|split; [|split]].
  - intros opt survey. unfold make_overlay. unfold_prims. simpl.
    destruct (fs w !! figure_path _ _ _ _); simpl; rewrite ?Hm; simpl; done.
  - intros opt_head. unfold make_mom0. unfold_prims. simpl.
    destruct (fs w !! figure_path _ _ _ _); simpl; rewrite ?Hm; simpl; done.
  - intros color_im opt_head survey Hout. unfold make_color_im. unfold_prims. simpl.
    rewrite Hout. simpl. rewrite Hm. reflexivity.
  - intros opt_head hs Hout Hs. unfold make_snr. unfold_prims. simpl.
    rewrite Hout. simpl. rewrite Hs. simpl. rewrite Hm. reflexivity.
Qed.

End Handles.

Lemma missing_intensity_product_witness :
  let c := net_sky in
  let w := mkWorld (<["run/J_cubelets/J_1_snr.fits" := Fits (mkHdu (head "snr") snr_data)]> ∅)
             [] [] [] [] in
  (forall opt survey,
      returns_quietly (make_overlay source1 base cube1 (mkPatch 1 1)
                         opt (Num 40) "png" survey) w)
  /\ (forall opt_head,
        returns_quietly (@make_mom0 c source1 base cube1 (mkPatch 1 1)
                           opt_head (Num 40) "png") w)
  /\ (forall color_im opt_head survey,
        fs w !! figure_path base source1 ("_mom0" +:+ survey) "png" = None ->
        (@make_color_im c source1 base cube1 (mkPatch 1 1) color_im
           opt_head (Num 40) "png" survey w).1 = Raise FileNotFoundError)
  /\ (forall opt_head hs,
        fs w !! figure_path base source1 "_snr" "png" = None ->
        fs w !! product_path base source1 "_snr.fits" = Some (Fits hs) ->
        (@make_snr c source1 base cube1 (mkPatch 1 1) opt_head
           (Num 40) "png" w).1 = Raise FileNotFoundError).
Proof.
  intros c w.
  apply (@missing_intensity_product c source1 base cube1 (mkPatch 1 1) (Num 40) "png" w).
  vm_compute. reflexivity.
Defined.

(** ** The image services *)

Section Services.
Context `{Capabilities}.

(** X7. [get_panstarrs] and [get_decals] return an image and a header
    together or neither of them, and an [HTTPError] raised inside its [try]
    never leaves [get_decals]. Neither touches a file, a figure or the
    caller's list. *)
Theorem fetch_gives_both_or_neither (hi_pos : SkyCoord) (view : Quantity) (w : world) :
  match (get_panstarrs hi_pos view w).1 with
  | Ok (Some _, Some _) | Ok (None, None) => True
  | Ok _ => False
  | Raise _ => True
  end
  /\ match (get_decals hi_pos view w).1 with
     | Ok (Some _, Some _) | Ok (None, None) => True
     | Ok _ => False
     | Raise e => e <> HTTPError
     end
  /\ quiet w (get_panstarrs hi_pos view w).2
  /\ quiet w (get_decals hi_pos view w).2.
Proof.
  split; [|split; [|split]].
  - unfold get_panstarrs. cbv zeta. destruct (geturl _ _ _) as [|p0 ps]; [exact I|].
    unfold bind, lift, print, ret.
    by destruct (fits_getheader p0) as [h|e].
  - unfold get_decals. cbv zeta. unfold try_except, try_catch, bind, lift, print, ret.
    destruct (fits_getheader _) as [h|e]; simpl.
    + destruct (requests_get_image _) as [im|e]; simpl; [exact I|].
      case_bool_decide; simpl; [exact I|done].
    + case_bool_decide; simpl; [exact I|done].
  - destruct (get_panstarrs hi_pos view w) as [r w'] eqn:Hrun.
    by eapply (get_panstarrs_step quiet).
  - destruct (get_decals hi_pos view w) as [r w'] eqn:Hrun.
    by eapply (get_decals_step quiet).
Qed.

End Services.

(** ** The survey blocks at their edges *)

Section Edges.
Context `{Capabilities}.

(** X8. [main] enters the HST block for 'HST' as for 'hst' but removes
    only 'hst': when the caller's list names 'HST' and not 'hst', the block
    never returns, and the list is as it was. With no HST image at the
    position the block ends in the [ValueError] of [surveys.remove('hst')],
    with nothing drawn. *)
Theorem upper_case_hst_is_never_removed (source : Source) (src_basename : string)
    (cube_params : CubeParams) (HIlowest : value) (suffix : string) (l : Locals) (w : world) :
  "HST" ∈ surveys w -> "hst" ∉ surveys w ->
  let r := hst_block source src_basename cube_params HIlowest suffix l w in
  (exists e, r.1 = Raise e)
  /\ surveys r.2 = surveys w
  /\ (get_hst_cosmos source (hst_field_of_view source cube_params) = None ->
      r.1 = Raise ValueError /\ r.2 = w).
Proof.
  intros Hup Hlow r. subst r.
  assert (Hrest : forall w1, surveys w1 = surveys w ->
            (s0 <- surveys_head ;;
             l' <- (if String.eqb s0 "hst"
                    then match get_hst_cosmos source (hst_field_of_view source cube_params) with
                         | Some o => ret (mkLocals (Some (header o))
                                            (hst_field_of_view source cube_params)
                                            (beam_patch cube_params
                                               (hst_field_of_view source cube_params)))
                         | None => raise TypeError
                         end
                    else ret l) ;;
             surveys_remove "hst" ;; ret l') w1 = (Raise ValueError, w1)).
  { intros w1 Hw1.
    destruct (surveys w) as [|s0 rest] eqn:Hs; [by apply elem_of_nil in Hup|].
    unfold bind, surveys_head. rewrite Hw1.
    destruct (String.eqb_spec s0 "hst") as [->|Hne]; [exfalso; apply Hlow; left|].
    unfold ret, surveys_remove. rewrite Hw1.
    by rewrite (proj2 (py_remove_None "hst" (s0 :: rest)) Hlow). }
  destruct (hst_block source src_basename cube_params HIlowest suffix l w) as [res w']
    eqn:Hrun. simpl.
  unfold hst_block in Hrun. unfold bind at 1 in Hrun. unfold get_surveys in Hrun.
  rewrite (proj2 (py_in_true "HST" (surveys w)) Hup), orb_true_r in Hrun.
  cbv zeta in Hrun.
  destruct (get_hst_cosmos source (hst_field_of_view source cube_params)) as [o|].
  - unfold bind at 1 in Hrun.
    destruct (make_overlay source src_basename cube_params _ (Some o) HIlowest suffix "hst" w)
      as [[[]|e] w1] eqn:Hov.
    all: pose proof (figure_step_keeps _ _ (make_overlay_step _ _ _ _ _ _ _ _) _ _ _ Hov)
      as Hkeep; unfold keeps_surveys in Hkeep.
    + rewrite (Hrest w1 Hkeep) in Hrun. injection Hrun as <- <-.
      split; [eauto|]. split; [exact Hkeep|]. discriminate.
    + injection Hrun as <- <-. split; [eauto|]. split; [exact Hkeep|]. discriminate.
  - unfold bind at 1 in Hrun. unfold ret at 1 in Hrun. rewrite (Hrest w eq_refl) in Hrun.
    injection Hrun as <- <-. eauto.
Qed.

(** X9. [main] assigns [cube_params] for SoFiA version 2 and 1 only. For
    any other version it never returns [True] and changes no file, figure
    or list; when the base contour can be computed it ends in
    [UnboundLocalError] at the first use of [cube_params]. *)
Theorem unknown_sofia_version (source : Source) (src_basename : string) (view : Quantity)
    (suffix : string) (sofia : Z) (beam : option Beam) (range : value * value) (w : world) :
  sofia <> 1%Z -> sofia <> 2%Z ->
  let r := main source src_basename view suffix sofia beam range w in
  r.1 <> Ok (Some true)
  /\ quiet w r.2
  /\ (forall hs hm C,
        fs w !! product_path src_basename source "_snr.fits" = Some (Fits hs) ->
        fs w !! product_path src_basename source "_mom0.fits" = Some (Fits hm) ->
        HIlowest_of (data hm) (data hs) range = Ok C ->
        r.1 = Raise UnboundLocalError).
Proof.
  intros H1%Z.eqb_neq H2%Z.eqb_neq r. subst r.
  destruct (main source src_basename view suffix sofia beam range w) as [res w'] eqn:Hrun.
  simpl. unfold main in Hrun. rewrite H1, H2 in Hrun.
  apply bind_inv in Hrun as [([] & w0 & H0 & Hrun)|(e & H0 & ->)]; [|discriminate H0].
  injection H0 as <-.
  apply bind_inv in Hrun as [(cp & w0 & H0 & Hrun)|(e & H0 & ->)]; [|discriminate H0].
  injection H0 as <- <-.
  assert (Hcomputed : forall hs hm C r w1,
            fs w !! product_path src_basename source "_snr.fits" = Some (Fits hs) ->
            fs w !! product_path src_basename source "_mom0.fits" = Some (Fits hm) ->
            HIlowest_of (data hm) (data hs) range = Ok C ->
            base_contour_step source src_basename range
              (mkWorld (fs w) (surveys w) (handles w)
                 (stdout w ++ [MsgStart (id source) (name source)]) (savefigs w)) = (r, w1) ->
            r = Ok (Some C)).
  { intros hs hm C r w1 Hs Hm HC. unfold base_contour_step. unfold_prims. simpl.
    rewrite Hs. simpl. rewrite Hm. simpl. rewrite HC. simpl.
    rewrite ?String.eqb_refl. simpl. rewrite ?String.eqb_refl. by intros [= <- _]. }
  apply bind_inv in Hrun as [(r & w1 & Hb & Hrun)|(e & Hb & ->)].
  - pose proof (base_contour_step_step quiet _ _ _ _ _ _ Hb) as (Hf & Hs & Hl).
    simpl in Hf, Hs, Hl. destruct r as [C|].
    + unfold main_images, bind, raise in Hrun. simpl in Hrun. injection Hrun as <- <-.
      split; [discriminate|]. split; [by repeat split|]. done.
    + injection Hrun as <- <-. split; [discriminate|]. split; [by repeat split|].
      intros hs hm C Hs' Hm' HC. by pose proof (Hcomputed _ _ _ _ _ Hs' Hm' HC Hb).
  - pose proof (base_contour_step_step quiet _ _ _ _ _ _ Hb) as (Hf & Hs & Hl).
    simpl in Hf, Hs, Hl. split; [discriminate|]. split; [by repeat split|].
    intros hs hm C Hs' Hm' HC. by pose proof (Hcomputed _ _ _ _ _ Hs' Hm' HC Hb).
Qed.

(** X10. The loop over the SkyView surveys swallows [ValueError] and
    [HTTPError]: neither an iteration nor the whole loop ever ends in one of
    them, whatever the queries and the overlays do. *)
Theorem skyview_loop_swallows (source : Source) (src_basename : string)
    (cube_params : CubeParams) (hi_pos : SkyCoord) (HIlowest : value) (suffix : string) :
  (forall survey l w,
      not_swallowed
        (skyview_iteration source src_basename cube_params hi_pos HIlowest suffix survey l w).1)
  /\ (forall todo l w,
        not_swallowed
          (skyview_loop source src_basename cube_params hi_pos HIlowest suffix todo l w).1).
Proof.
  assert (Hit : forall survey l w,
            not_swallowed
              (skyview_iteration source src_basename cube_params hi_pos HIlowest suffix
                 survey l w).1).
  { intros survey l w. unfold skyview_iteration, try_catch.
    match goal with |- context [match ?m w with _ => _ end] => destruct (m w) as [[a|e] w1] end.
    - split; discriminate.
    - destruct e; simpl; split; discriminate. }
  split; [exact Hit|].
  induction todo as [|survey rest IH]; intros l w; simpl.
  - split; discriminate.
  - unfold bind. specialize (Hit survey l w).
    destruct (skyview_iteration source src_basename cube_params hi_pos HIlowest suffix
                survey l w) as [[l'|e] w1]; [apply IH|].
    simpl in *. destruct Hit as [Hv Hh]. split; congruence.
Qed.

End Edges.

Lemma upper_case_hst_is_never_removed_witness :
  let r := @hst_block net_sky source1 base cube1 (Num 40) "png"
             (mkLocals None default_opt_view (mkPatch 1 1)) (world1 ["HST"]) in
  (exists e, r.1 = Raise e)
  /\ surveys r.2 = surveys (world1 ["HST"])
  /\ (@get_hst_cosmos net_sky source1 (hst_field_of_view source1 cube1) = None ->
      r.1 = Raise ValueError /\ r.2 = world1 ["HST"]).
Proof.
  apply (@upper_case_hst_is_never_removed net_sky source1 base cube1 (Num 40) "png"
           (mkLocals None default_opt_view (mkPatch 1 1)) (world1 ["HST"])).
  - apply (bool_decide_unpack _). vm_compute. exact I.
  - apply (bool_decide_unpack _). vm_compute. exact I.
Defined.

Lemma unknown_sofia_version_witness :
  let r := @main net_sky source1 base default_opt_view "png" 3 None default_snr_range
             (world1 ["DSS2 Blue"]) in
  r.1 <> Ok (Some true)
  /\ quiet (world1 ["DSS2 Blue"]) r.2
  /\ (forall hs hm C,
        fs (world1 ["DSS2 Blue"]) !! product_path base source1 "_snr.fits" = Some (Fits hs) ->
        fs (world1 ["DSS2 Blue"]) !! product_path base source1 "_mom0.fits" = Some (Fits hm) ->
        @HIlowest_of (data hm) (data hs) default_snr_range = Ok C ->
        r.1 = Raise UnboundLocalError).
Proof.
  apply (@unknown_sofia_version net_sky source1 base default_opt_view "png" 3 None
           default_snr_range (world1 ["DSS2 Blue"])); lia.
Defined.

(** ** What the renderer refuses *)

Lemma Qle_bool_scaled (c a b : Q) :
  (b < a)%Q -> Qle_bool (c * a - c * b) 0 = Qle_bool c 0.
Proof.
  intros Hab. apply eq_true_iff_eq. rewrite !Qle_bool_iff.
  assert (Heq : (c * a - c * b == c * (a - b))%Q) by ring. rewrite Heq.
  split; intros Hle; [|nra].
  destruct (Qlt_le_dec 0 c) as [Hpos|Hneg]; [|exact Hneg]. nra.
Qed.

Lemma Qle_bool_scaled_l (q a b : Q) :
  (b < a)%Q -> Qle_bool (a * q - b * q) 0 = Qle_bool q 0.
Proof.
  intros Hab. rewrite <- (Qle_bool_scaled q a b Hab).
  apply eq_true_iff_eq. rewrite !Qle_bool_iff.
  assert (Heq : (a * q - b * q == q * a - q * b)%Q) by ring. by rewrite Heq.
Qed.

Lemma pv_levels_refused (q : Q) : not_increasing (pv_levels (Num q)) = Qle_bool q 0.
Proof.
  unfold not_increasing, pv_levels. cbn [diffs vmul vsub vlift2 all_nums existsb].
  rewrite !Qle_bool_scaled_l by reflexivity. by destruct (Qle_bool q 0).
Qed.

Lemma ladder_refused (c : Q) : not_increasing (contour_ladder (Num c)) = Qle_bool c 0.
Proof.
  unfold not_increasing, contour_ladder.
  cbn [seq map diffs vmul vsub vlift2 all_nums existsb].
  rewrite !Qle_bool_scaled by reflexivity. by destruct (Qle_bool c 0).
Qed.

(** X11. The ladder [base_contour * 2 ** np.arange(10)] is refused by the
    renderer, which wants increasing levels, exactly when the base contour
    is a number that is zero or negative; a [NaN] base contour is not
    refused. *)
Theorem ladder_needs_positive_base (c : Q) :
  not_increasing (contour_ladder (Num c)) = Qle_bool c 0
  /\ not_increasing (contour_ladder NaN) = false.
Proof.
  split; [apply ladder_refused|reflexivity].
Qed.

Section Refused.
Context `{Capabilities}.

(** X12. [make_pv] draws the levels -2, 2 and 4 times the standard deviation
    of the diagram: for a product of at least 2 x 2 pixels whose standard
    deviation is zero (constant data) or negative the renderer refuses them
    and [make_pv] ends in [ValueError] with nothing written; for a positive
    standard deviation the figure is drawn with these levels. *)
Theorem pv_contours_need_spread (source : Source) (src_basename : string)
    (cube_params : CubeParams) (suffix : string) (pv : hdu) (q : Q) (w : world) :
  fs w !! figure_path src_basename source "_pv" suffix = None ->
  fs w !! product_path src_basename source "_pv.fits" = Some (Fits pv) ->
  at_least_2x2 (data pv) = true ->
  np_nanstd (data pv) = Num q ->
  let r := make_pv source src_basename cube_params suffix w in
  if Qle_bool q 0
  then r.1 = Raise ValueError /\ fs r.2 = fs w /\ savefigs r.2 = savefigs w
  else r.1 = Ok tt
       /\ savefigs r.2
          = savefigs w ++ [(figure_path src_basename source "_pv" suffix,
                            mkFigure FigPV (header pv) (Gray (data pv)) None
                                     (pv_levels (Num q)))].
Proof.
  intros Hout Hpv Hbig Hstd r. subst r.
  unfold make_pv. unfold_prims. simpl. rewrite Hout. simpl. rewrite Hpv. simpl.
  unfold contour_check. rewrite Hbig, Hstd. cbn [negb]. rewrite pv_levels_refused.
  destruct (Qle_bool q 0); simpl; done.
Qed.

(** X13. With a base contour that is zero or negative the overlay on a
    SkyView image is not drawn: the renderer's [ValueError] is caught by the
    loop, which reports the survey as unknown to SkyView and goes on with
    the locals, the primary grid among them, as they were. *)
Theorem non_positive_base_contour (source : Source) (src_basename : string)
    (cube_params : CubeParams) (hi_pos : SkyCoord) (suffix survey : string) (c : Q)
    (hm im : hdu) (rest : list hdu) (l : Locals) (w : world) :
  (c <= 0)%Q ->
  fs w !! product_path src_basename source "_mom0.fits" = Some (Fits hm) ->
  at_least_2x2 (data hm) = true ->
  fs w !! overlay_path src_basename source suffix survey = None ->
  skyview_query hi_pos (opt_view l) survey = Ok (im :: rest) ->
  let r := skyview_iteration source src_basename cube_params hi_pos (Num c) suffix survey l w in
  r.1 = Ok l /\ fs r.2 = fs w /\ savefigs r.2 = savefigs w
  /\ last (stdout r.2) = Some (MsgNotASurvey survey).
Proof.
  intros Hc Hm Hbig Hout Hq r. subst r.
  assert (Hcheck : contour_check (data hm) (contour_ladder (Num c)) = Raise ValueError).
  { unfold contour_check. rewrite Hbig. cbn [negb].
    rewrite ladder_refused. by rewrite (proj2 (Qle_bool_iff c 0) Hc). }
  unfold skyview_query in Hq. unfold overlay_path in Hout.
  unfold skyview_iteration, get_skyview, make_overlay. cbv zeta. unfold_prims.
  rewrite Hq. simpl. rewrite Hout. simpl. rewrite Hm. simpl. rewrite Hcheck. simpl.
  repeat split; try reflexivity. apply last_snoc.
Qed.

End Refused.

Lemma pv_contours_need_spread_witness :
  let r := @make_pv net_sky source1 base cube1 "png" (world1 []) in
  r.1 = Ok tt
  /\ savefigs r.2
     = [(figure_path base source1 "_pv" "png",
         mkFigure FigPV (head "pv") (Gray pv_data) None (pv_levels (Num 1)))].
Proof.
  apply (@pv_contours_need_spread net_sky source1 base cube1 "png"
           (mkHdu (head "pv") pv_data) 1 (world1 [])); vm_compute; reflexivity.
Defined.

Lemma non_positive_base_contour_witness :
  let r := @skyview_iteration net_sky source1 base cube1 (mkSkyCoord 150 2 "icrs" None)
             (Num 0) "png" "DSS2 Blue" (mkLocals None default_opt_view (mkPatch 1 1))
             (world1 ["DSS2 Blue"]) in
  r.1 = Ok (mkLocals None default_opt_view (mkPatch 1 1))
  /\ fs r.2 = fs1 /\ savefigs r.2 = []
  /\ last (stdout r.2) = Some (MsgNotASurvey "DSS2 Blue").
Proof.
  apply (@non_positive_base_contour net_sky source1 base cube1 (mkSkyCoord 150 2 "icrs" None)
           "png" "DSS2 Blue" 0 (mkHdu (head "mom0") mom0_data) (sky_image "DSS2 Blue") []
           (mkLocals None default_opt_view (mkPatch 1 1)) (world1 ["DSS2 Blue"]));
    vm_compute; first [reflexivity | discriminate].
Defined.

(** ** A run without surveys *)

Section NoSurveys.
Context `{Capabilities}.

Lemma survey_blocks_no_surveys source src_basename cube_params hi_pos C suffix l w :
  surveys w = [] ->
  survey_blocks source src_basename cube_params hi_pos C suffix l w = (Ok l, w).
Proof.
  intros Hs. unfold survey_blocks, bind.
  rewrite hst_block_skip by (rewrite Hs; apply not_elem_of_nil).
  rewrite panstarrs_block_skip by (rewrite Hs; apply not_elem_of_nil).
  rewrite decals_block_skip by (rewrite Hs; apply not_elem_of_nil).
  unfold skyview_block, bind, get_surveys. by rewrite Hs.
Qed.

Lemma main_images_no_surveys source src_basename cube_params view suffix C w r w' :
  surveys w = [] ->
  main_images source src_basename cube_params view suffix C w = (r, w') -> quiet w w'.
Proof.
  intros Hs Hrun. unfold main_images in Hrun.
  destruct cube_params as [cp|]; [|by injection Hrun as <- <-].
  unfold bind at 1 in Hrun. unfold ret at 1 in Hrun. cbv zeta in Hrun.
  unfold bind at 1 in Hrun.
  destruct (any_gt (Xsize source cp) (qvalue view / 2)
            || any_gt (Ysize source cp) (qvalue view / 2)).
  - unfold print at 1 in Hrun. unfold bind at 1 in Hrun.
    rewrite survey_blocks_no_surveys in Hrun by done.
    unfold grid_block, bind, ret in Hrun. simpl in Hrun. by injection Hrun as <- <-.
  - unfold ret at 1 in Hrun. unfold bind at 1 in Hrun.
    rewrite survey_blocks_no_surveys in Hrun by done.
    unfold grid_block, bind, ret in Hrun. simpl in Hrun. by injection Hrun as <- <-.
Qed.

Lemma make_pv_pv_only source src_basename cube_params suffix :
  preserves (pv_only (figure_path src_basename source "_pv" suffix))
    (make_pv source src_basename cube_params suffix).
Proof.
  intros w r w' Hrun. unfold make_pv in Hrun.
  exec Hrun; (split; [reflexivity|]); simpl;
    first [by left | right; eexists; split; [|reflexivity]; reflexivity].
Qed.

Lemma read_cube_params_quiet source src_basename (sofia : Z) beam :
  preserves quiet
    (if (sofia =? 2)%Z
     then cp <- lift (get_info (product_path src_basename source "_cube.fits") beam) ;;
          ret (Some cp)
     else if (sofia =? 1)%Z
          then cp <- lift (get_info (product_path src_basename source ".fits") beam) ;;
               ret (Some cp)
          else ret None).
Proof. destruct (sofia =? 2)%Z; [|destruct (sofia =? 1)%Z]; pres. Qed.

(** X14. Called with an empty list of surveys, [main] draws at most one
    figure, the position-velocity diagram, whatever the products are and
    however it ends, and the caller's list is still empty afterwards. *)
Theorem empty_list_draws_pv_only (source : Source) (src_basename : string)
    (view : Quantity) (suffix : string) (sofia : Z) (beam : option Beam)
    (range : value * value) (w : world) :
  surveys w = [] ->
  pv_only (figure_path src_basename source "_pv" suffix) w
    (main source src_basename view suffix sofia beam range w).2.
Proof.
  intros Hs.
  destruct (main source src_basename view suffix sofia beam range w) as [r w'] eqn:Hrun.
  simpl. unfold main in Hrun.
  assert (Hquiet : forall u u', quiet u u' ->
            pv_only (figure_path src_basename source "_pv" suffix) u u').
  { intros u u' (_ & Hf & Hl). split; [exact Hl|by left]. }
  apply bind_inv in Hrun as [([] & w0 & H0 & Hrun)|(e & H0 & ->)]; [|discriminate H0].
  assert (Q0 : quiet w w0) by (by eapply (preserves_print quiet)).
  apply bind_inv in Hrun as [(cube_params & w1 & H1 & Hrun)|(e & H1 & ->)].
  2:{ apply Hquiet. eapply step_trans; [exact Q0|]. by eapply read_cube_params_quiet. }
  assert (Q1 : quiet w w1).
  { eapply step_trans; [exact Q0|]. by eapply read_cube_params_quiet. }
  apply bind_inv in Hrun as [(r1 & w2 & H2 & Hrun)|(e & H2 & ->)].
  2:{ apply Hquiet. eapply step_trans; [exact Q1|].
      by eapply (base_contour_step_step quiet). }
  assert (Q2 : quiet w w2).
  { eapply step_trans; [exact Q1|]. by eapply (base_contour_step_step quiet). }
  destruct r1 as [C|]; [|injection Hrun as <- <-; by apply Hquiet].
  assert (Hs2 : surveys w2 = []) by (destruct Q2 as (_ & _ & ->); exact Hs).
  apply bind_inv in Hrun as [([[source' cp] l] & w3 & H3 & Hrun)|(e & H3 & ->)].
  2:{ apply Hquiet. eapply step_trans; [exact Q2|]. by eapply main_images_no_surveys. }
  assert (Q3 : quiet w w3).
  { eapply step_trans; [exact Q2|]. by eapply main_images_no_surveys. }
  apply main_images_source in H3 as [pos ->].
  destruct Q3 as (_ & Hf3 & Hl3).
  apply bind_inv in Hrun as [([] & w4 & H4 & Hrun)|(e & H4 & ->)].
  - apply make_pv_pv_only in H4 as [Hl4 Hf4].
    assert (Q5 : quiet w4 w').
    { revert Hrun. generalize w4 r w'.
      change (preserves quiet
        (print (MsgDone (id (set_position source pos)) (name (set_position source pos))) ;;
         ret (Some true))). pres. }
    destruct Q5 as (_ & Hf5 & Hl5). split; [congruence|].
    rewrite Hf5, <- Hf3. exact Hf4.
  - apply make_pv_pv_only in H4 as [Hl4 Hf4]. split; [congruence|].
    rewrite <- Hf3. exact Hf4.
Qed.

End NoSurveys.

Lemma empty_list_draws_pv_only_witness :
  pv_only (figure_path base source1 "_pv" "png") (world1 []) (run net_sky (world1 [])).2.
Proof.
  apply (@empty_list_draws_pv_only net_sky source1 base default_opt_view "png" 2 None
           default_snr_range (world1 [])).
  reflexivity.
Defined.
